(** * Distribution featurizers of matminer

    A shallow embedding of
    [matminer/featurizers/structure/distribution.py]: the classes
    [RadialDistributionFunction], [PartialRadialDistributionFunction],
    [ElectronicRadialDistributionFunction] and [XRDPowderPattern],
    together with the numpy and itertools primitives their bodies call.

    Conventions of the embedding.
    - A Python float is the rational number it denotes.  Where the
      integer part of a float decides a count or an index (the length of
      [np.arange], hence the number of bins of the RDF and the PRDF, and
      the two [int(... / self.dr)] of the ReDF) the operations are the
      binary64 ones, rounded to nearest with ties to even ([float.add],
      [float.sub], [float.truediv]); the exponent range is not modelled,
      so no overflow and no gradual underflow.  The values that fill the
      arrays (bin edges, normalised counts, charge terms, densities) are
      the exact ones, without the rounding of each operation; counts are
      integers [Z].  [math.pi] is the rational value of the binary64
      constant.
    - A Python call that may raise is a computation in the [result] monad.
    - Objects of pymatgen ([Structure], sites, species, elements) are
      records whose fields are the attributes and methods the source
      reads. *)

From Stdlib Require Import QArith Qround Qpower Lqa OrderedTypeEx.
From stdpp Require Import gmap strings list sorting pretty.

Local Open Scope Z_scope.
Local Open Scope Q_scope.
Local Open Scope nat_scope.
Local Open Scope string_scope.
Local Open Scope list_scope.

(** ** Exceptions *)

Inductive exn : Type :=
  | ValueError (msg : string)
  | Exception (msg : string)
  | ZeroDivisionError
  | IndexError
  | KeyError
  | AttributeError.

Inductive result (A : Type) : Type :=
  | Ok (a : A)
  | Raise (e : exn).
Arguments Ok {A} a.
Arguments Raise {A} e.

Global Instance result_ret : MRet result := fun A a => Ok a.
Global Instance result_bind : MBind result := fun A B k m =>
  match m with
  | Ok a => k a
  | Raise e => Raise e
  end.

Global Instance result_fmap : FMap result := fun A B f m =>
  match m with
  | Ok a => Ok (f a)
  | Raise e => Raise e
  end.

(** The three error conditions of the featurizers, as the source raises
    them. *)
Definition UnsupportedStructure : exn :=
  ValueError "Disordered structure support not built yet".
Definition NotFitted : exn := Exception "You must run 'fit' first!".
Definition InvalidConfiguration : exn :=
  ValueError "width of bins for ReDF must be >0".

Definition returns {A} (m : result A) : Prop := exists a, m = Ok a.

(** [for x in l: body] over an accumulator, stopping at the first raise. *)
Fixpoint foldM {A S} (body : S -> A -> result S) (l : list A) (s : S)
  : result S :=
  match l with
  | [] => Ok s
  | x :: l' => s' ← body s x; foldM body l' s'
  end.

(** ** Rational helpers *)

Definition Qltb (x y : Q) : bool := negb (Qle_bool y x).
Definition Qofnat (n : nat) : Q := inject_Z (Z.of_nat n).

(** Python's [int(x)] on a float: truncation toward zero. *)
Definition py_int (x : Q) : Z :=
  if Qle_bool 0 x then Qfloor x else Qceiling x.

Definition math_pi : Q := 884279719003555 # 281474976710656.

(** ** Python floats *)

(** Rounding of a real number to binary64, to nearest with ties to even,
    for an unbounded exponent range. *)
Module binary64.

(** The integer nearest to [r], the even one of the two when [r] lies
    halfway. *)
Definition rne (r : Q) : Z :=
  let f := Qfloor r in
  match Qcompare (r - inject_Z f) (1 # 2) with
  | Lt => f
  | Gt => (f + 1)%Z
  | Eq => if Z.even f then f else (f + 1)%Z
  end.

(** The exponent [e] of [a > 0]: [2^e <= a < 2^(e+1)]. *)
Definition exponent (a : Q) : Z :=
  let e := (Z.log2 (Qnum a) - Z.log2 (Zpos (Qden a)))%Z in
  if Qle_bool (2 ^ e) a then e else (e - 1)%Z.

(** The spacing of the floats around [a]: 53 significant bits. *)
Definition ulp (a : Q) : Q := (2 ^ (exponent a - 52))%Q.

Definition round (x : Q) : Q :=
  match Qcompare x 0 with
  | Eq => 0%Q
  | Gt => (inject_Z (rne (x / ulp x)) * ulp x)%Q
  | Lt => (- (inject_Z (rne (- x / ulp (- x))) * ulp (- x)))%Q
  end.

Definition unit_roundoff : Q := 1 # 2 ^ 53.

End binary64.

(** [x + y], [x - y] and [x / y] on floats. *)
Module float.

Definition add (x y : Q) : Q := binary64.round (x + y).
Definition sub (x y : Q) : Q := binary64.round (x - y).
Definition truediv (x y : Q) : Q := binary64.round (x / y).

End float.

Definition count_if (p : Q -> bool) (l : list Q) : nat :=
  length (List.filter p l).

(** ** numpy *)

Module np.

(** [np.arange(start, stop, step)] on floats: the length is
    [ceil((stop - start) / step)] with the difference and the quotient
    computed in floats, the values are [start + i*step]; none when that
    length is not positive. *)
Definition arange (start stop step : Q) : result (list Q) :=
  if Qeq_bool step 0 then Raise ZeroDivisionError
  else
    let n := Z.to_nat (Qceiling (float.truediv (float.sub stop start) step)) in
    Ok (map (fun i => (start + Qofnat i * step)%Q) (seq 0 n)).

(** [a.searchsorted(v, 'left')] on the sorted data: how many entries are
    [< v]; with ['right']: how many are [<= v]. *)
Definition searchsorted_left (a : list Q) (v : Q) : Z :=
  Z.of_nat (count_if (fun x => Qltb x v) a).
Definition searchsorted_right (a : list Q) (v : Q) : Z :=
  Z.of_nat (count_if (fun x => Qle_bool x v) a).

(** [v[:-1]] and [v[-1:]]. *)
Definition but_last {A} (v : list A) : list A := removelast v.
Definition last_slice {A} (v : list A) : list A :=
  match v with
  | [] => []
  | x :: v' => [List.last v' x]
  end.

Definition search_sorted_inclusive (a v : list Q) : list Z :=
  map (searchsorted_left a) (but_last v) ++
  map (searchsorted_right a) (last_slice v).

Fixpoint diff (l : list Z) : list Z :=
  match l with
  | x :: ((y :: _) as l') => (y - x)%Z :: diff l'
  | _ => []
  end.

(** [bin_edges[:-1] > bin_edges[1:]] somewhere. *)
Fixpoint decreases (edges : list Q) : bool :=
  match edges with
  | x :: ((y :: _) as l') => Qltb y x || decreases l'
  | _ => false
  end.

(** [np.histogram(a, bins=edges, density=False)] for an explicit edge
    array: a cumulative count at every edge, the last one inclusive,
    then the differences. *)
Definition histogram (a edges : list Q) : result (list Z * list Q) :=
  if decreases edges then
    Raise (ValueError "`bins` must increase monotonically, when an array")
  else Ok (diff (search_sorted_inclusive a edges), edges).

(** [np.concatenate] of one-dimensional arrays. *)
Definition concatenate {A} (arrs : list (list A)) : result (list A) :=
  match arrs with
  | [] => Raise (ValueError "need at least one array to concatenate")
  | _ => Ok (concat arrs)
  end.

(** [np.hstack] of one-dimensional arrays. *)
Definition hstack {A} (arrs : list (list A)) : result (list A) :=
  concatenate arrs.

Definition zeros_like (a : list Q) : list Q := map (fun _ => 0%Q) a.

(** [np.power(edges[1:], 3) - np.power(edges[:-1], 3)], elementwise. *)
Fixpoint cube_diff (edges : list Q) : list Q :=
  match edges with
  | x :: ((y :: _) as l') => (y ^ 3 - x ^ 3)%Q :: cube_diff l'
  | _ => []
  end.

(** Index resolution of [arr[i]] on an array of length [n]: negative
    indices count from the end, anything else out of range raises. *)
Definition index_of (n : nat) (i : Z) : result nat :=
  if (0 <=? i)%Z && (i <? Z.of_nat n)%Z then Ok (Z.to_nat i)
  else if (- Z.of_nat n <=? i)%Z && (i <? 0)%Z then Ok (Z.to_nat (i + Z.of_nat n))
  else Raise IndexError.

(** [arr[i] += v]. *)
Definition iadd (arr : list Q) (i : Z) (v : Q) : result (list Q) :=
  k ← index_of (length arr) i;
  Ok (alter (fun x => (x + v)%Q) k arr).

(** [np.zeros(n)]. *)
Definition zeros (n : Z) : result (list Q) :=
  if (n <? 0)%Z then Raise (ValueError "negative dimensions are not allowed")
  else Ok (replicate (Z.to_nat n) 0%Q).

End np.

(** ** itertools *)

Module itertools.

Definition product {A B} (l1 : list A) (l2 : list B) : list (A * B) :=
  a ← l1; b ← l2; [(a, b)].

(** [combinations_with_replacement(l, 2)]. *)
Fixpoint combinations_with_replacement2 {A} (l : list A) : list (A * A) :=
  match l with
  | [] => []
  | x :: l' => map (pair x) (x :: l') ++ combinations_with_replacement2 l'
  end.

End itertools.

(** ** pymatgen objects *)

Record Element : Type := mkElement { symbol : string }.

Global Instance Element_eq_dec : EqDecision Element.
Proof. solve_decision. Defined.
Global Instance Element_countable : Countable Element :=
  inj_countable' symbol mkElement (fun e => match e with mkElement _ => eq_refl end).

(** A key of a composition or the species of a site: a plain [Element],
    or a [Specie] carrying its element and an oxidation state. *)
Inductive Species : Type :=
  | Elem (e : Element)
  | Specie (element : Element) (oxi : Q).

(** [isinstance(sp, Element)]. *)
Definition isinstance_Element (sp : Species) : bool :=
  match sp with Elem _ => true | Specie _ _ => false end.

(** [sp.element] of a [Specie] (an [Element] has no such attribute). *)
Definition Specie_element (sp : Species) : result Element :=
  match sp with Specie e _ => Ok e | Elem _ => Raise AttributeError end.
(** [sp.oxi_state]. *)
Definition oxi_state (sp : Species) : result Q :=
  match sp with Specie _ q => Ok q | Elem _ => Raise AttributeError end.
(** [sp.symbol]: of the element itself, or of the element of a specie. *)
Definition Species_symbol (sp : Species) : string :=
  match sp with Elem e => symbol e | Specie e _ => symbol e end.

(** A site.  [specie] is the property [site.specie]; pymatgen raises
    [AttributeError] from it on a site that is not ordered. *)
Record Site : Type := mkSite { specie : result Species }.

Definition vec : Type := Q * Q * Q.
Definition vadd (u v : vec) : vec :=
  let '(a, b, c) := u in let '(x, y, z) := v in (a + x, b + y, c + z)%Q.
Definition vsub (u v : vec) : vec :=
  let '(a, b, c) := u in let '(x, y, z) := v in (a - x, b - y, c - z)%Q.
Definition vneg (u : vec) : vec :=
  let '(a, b, c) := u in (- a, - b, - c)%Q.

(** What the featurizers read of a [Structure]. *)
Record Structure : Type := mkStructure {
  is_ordered : bool;
  sites : list Site;
  volume : Q;
  (** [s.composition.keys()] *)
  composition_keys : list Species;
  (** [s.composition.fractional_composition.to_reduced_dict] *)
  to_reduced_dict : gmap string Q;
  (** [s.get_all_neighbors(r)]: per site, its (neighbor, distance) pairs *)
  get_all_neighbors : Q -> list (list (Site * Q));
  (** [s.get_neighbors(site, r)] *)
  get_neighbors : Site -> Q -> list (Site * Q);
  (** rows of [s.lattice.matrix] *)
  lattice_matrix : vec * vec * vec
}.

Definition num_sites (s : Structure) : nat := length (sites s).

(** The external collaborators whose code is outside this file. *)
Class Pymatgen : Type := {
  (** [Element(e)] accepts exactly the valid symbols *)
  valid_symbol : string -> bool;
  (** [Element.__lt__], the order [sorted] uses *)
  element_ltb : Element -> Element -> bool;
  (** [SpacegroupAnalyzer(s).find_primitive()] *)
  find_primitive : Structure -> result (option Structure);
  (** [ValenceIonicRadiusEvaluator(struct).structure] *)
  valence_structure : Structure -> result Structure;
  (** [np.linalg.norm] of a 3-vector (a square root, so not in [Q]) *)
  linalg_norm : vec -> Q
}.

Section Builtins.
Context `{Pymatgen}.

(** [Element(e)] for a symbol string. *)
Definition Element_ (e : string) : result Element :=
  if valid_symbol e then Ok (mkElement e)
  else Raise (ValueError "not a valid Element").

(** [x <= y] in the sense of "not [y < x]", the comparison a sort by
    [__lt__] performs. *)
Definition element_le (x y : Element) : Prop := element_ltb y x = false.

Global Instance element_le_dec x y : Decision (element_le x y).
Proof. unfold element_le. apply _. Defined.

(** [sorted(elements)] of a set of elements. *)
Definition sorted (els : gset Element) : list Element :=
  merge_sort element_le (elements els).

(** [max] of a non-empty list. *)
Definition py_max (x : Q) (l : list Q) : Q :=
  foldl (fun m y => if Qltb m y then y else m) x l.

End Builtins.

(** The dictionary [{'distances': ..., 'distribution': ...}] that the RDF
    and the ReDF return. *)
Record Distribution : Type := mkDistribution {
  distances : list Q;
  distribution : list Q
}.

(** [4.0 / 3.0 * math.pi * (np.power(edges[1:], 3) - np.power(edges[:-1], 3))],
    the expression both histogram featurizers normalise with. *)
Definition shell_volumes (edges : list Q) : list Q :=
  map (fun v => (4 / 3 * math_pi * v)%Q) (np.cube_diff edges).

(** [hist / shell / density], elementwise on arrays of one shape. *)
Definition normalize (hist : list Z) (shell : list Q) (density : Q) : list Q :=
  zip_with (fun h v => (inject_Z h / v / density)%Q) hist shell.

(** ** class RadialDistributionFunction *)

Module RadialDistributionFunction.

Record t : Type := mk { cutoff : Q; bin_size : Q }.

Definition __init__ (cutoff bin_size : Q) : result t :=
  Ok {| cutoff := cutoff; bin_size := bin_size |}.

Definition featurize (self : t) (s : Structure) : result (list Distribution) :=
  if negb (is_ordered s) then Raise UnsupportedStructure
  else
    let neighbors_lst := get_all_neighbors s (cutoff self) in
    all_distances ← np.concatenate (map (map snd) neighbors_lst);
    bins ← np.arange 0 (float.add (cutoff self) (bin_size self)) (bin_size self);
    '(dist_hist, dist_bins) ← np.histogram all_distances bins;
    let shell_vol := shell_volumes dist_bins in
    let number_density := (Qofnat (num_sites s) / volume s)%Q in
    let rdf := normalize dist_hist shell_vol number_density in
    Ok [ {| distances := np.but_last dist_bins; distribution := rdf |} ].

Definition feature_labels (self : t) : list string :=
  ["radial distribution function"].

End RadialDistributionFunction.

(** ** class PartialRadialDistributionFunction *)

Module PartialRadialDistributionFunction.

Record t : Type := mk {
  cutoff : Q;
  bin_size : Q;
  elements_ : option (list string);
  include_elems : list string;
  exclude_elems : list string
}.

(** One label ["{}-{} PRDF r={:.2f}-{:.2f}".format(e1, e2, r_start, r_end)],
    kept as the four values it renders. *)
Record label : Type := mk_label {
  label_e1 : string; label_e2 : string; r_start : Q; r_end : Q
}.

Definition __init__ (cutoff bin_size : Q) (include_elems exclude_elems : list string)
  : result t :=
  Ok {| cutoff := cutoff; bin_size := bin_size; elements_ := None;
        include_elems := include_elems; exclude_elems := exclude_elems |}.

Definition _make_bins (self : t) : result (list Q) :=
  np.arange 0 (float.add (cutoff self) (bin_size self)) (bin_size self).

(** [e.element if isinstance(e, Specie) else e] *)
Definition base_element (e : Species) : Element :=
  match e with
  | Specie el _ => el
  | Elem el => el
  end.

(** The nested helper of [compute_prdf]. *)
Definition get_symbol (site : Site) : result string :=
  sp ← specie site;
  if isinstance_Element sp then Ok (Species_symbol sp)
  else e ← Specie_element sp; Ok (symbol e).

(** [distances_by_type[key].append(rij)] *)
Definition append_distance (dbt : gmap (string * string) (list Q))
    (key : string * string) (rij : Q) : result (gmap (string * string) (list Q)) :=
  match dbt !! key with
  | Some l => Ok (<[key := l ++ [rij]]> dbt)
  | None => Raise KeyError
  end.

(** [composition[k]] *)
Definition getitem (composition : gmap string Q) (k : string) : result Q :=
  match composition !! k with
  | Some c => Ok c
  | None => Raise KeyError
  end.

(** Body of [for neighbor in nlst], for a site of element [my_elem]. *)
Definition collect_neighbor (my_elem : string)
    (dbt : gmap (string * string) (list Q)) (neighbor : Site * Q)
  : result (gmap (string * string) (list Q)) :=
  let rij := neighbor.2 in
  n_elem ← get_symbol neighbor.1;
  append_distance dbt (my_elem, n_elem) rij.

(** Body of [for site, nlst in zip(s.sites, neighbors_lst)]. *)
Definition collect_site (dbt : gmap (string * string) (list Q))
    (p : Site * list (Site * Q)) : result (gmap (string * string) (list Q)) :=
  let '(site, nlst) := p in
  my_elem ← get_symbol site;
  foldM (collect_neighbor my_elem) nlst dbt.

(** Body of [for key, distances in distances_by_type.items()]. *)
Definition histogram_pair (composition : gmap string Q) (n_sites : nat)
    (shell_volume : list Q)
    (st : gmap (string * string) (list Q) * list Q)
    (item : (string * string) * list Q)
  : result (gmap (string * string) (list Q) * list Q) :=
  let '(prdf, dist_bins) := st in
  let '(key, distances) := item in
  '(dist_hist, dist_bins) ← np.histogram distances dist_bins;
  c ← getitem composition (key.1);
  let n_alpha := (c * Qofnat n_sites)%Q in
  let rdf := normalize dist_hist shell_volume n_alpha in
  Ok (<[key := rdf]> prdf, dist_bins).

(** [distances_by_type] before any distance is appended: an empty list
    for every ordered pair of composition keys. *)
Definition empty_buckets (composition : gmap string Q)
  : gmap (string * string) (list Q) :=
  let keys := (map_to_list composition).*1 in
  foldl (fun dbt p => <[p := []]> dbt) ∅ (itertools.product keys keys).

Definition compute_prdf (self : t) (s : Structure)
  : result (list Q * gmap (string * string) (list Q)) :=
  let composition := to_reduced_dict s in
  let neighbors_lst := get_all_neighbors s (cutoff self) in
  let distances_by_type := empty_buckets composition in
  distances_by_type ←
    foldM collect_site (zip (sites s) neighbors_lst) distances_by_type;
  dist_bins ← _make_bins self;
  let shell_volume := shell_volumes dist_bins in
  '(prdf, dist_bins) ←
    foldM (histogram_pair composition (num_sites s) shell_volume)
          (map_to_list distances_by_type)
          ((∅ : gmap (string * string) (list Q)), dist_bins);
  Ok (np.but_last dist_bins, prdf).

Definition featurize (self : t) (s : Structure) : result (list Q) :=
  if negb (is_ordered s) then Raise UnsupportedStructure
  else match elements_ self with
  | None => Raise NotFitted
  | Some elems =>
    '(dist_bins, prdf) ← compute_prdf self s;
    let zeros := np.zeros_like dist_bins in
    let output :=
      map (fun key => default zeros (prdf !! key))
          (itertools.combinations_with_replacement2 elems) in
    np.hstack output
  end.

Definition feature_labels (self : t) : result (list label) :=
  match elements_ self with
  | None => Raise NotFitted
  | Some elems =>
    bin_edges ← _make_bins self;
    Ok ('(e1, e2) ← itertools.combinations_with_replacement2 elems;
        '(r_start, r_end) ← zip bin_edges (tail bin_edges);
        [mk_label e1 e2 r_start r_end])
  end.

Section Fit.
Context `{Pymatgen}.

Definition fit (self : t) (X : list Structure) : result t :=
  incl ← mapM Element_ (include_elems self);
  let elements : gset Element := list_to_set incl in
  let elements :=
    foldl (fun (acc : gset Element) strc =>
             acc ∪ list_to_set (map base_element (composition_keys strc)))
          elements X in
  excl ← mapM Element_ (exclude_elems self);
  let elements := elements ∖ list_to_set excl in
  Ok {| cutoff := cutoff self; bin_size := bin_size self;
        elements_ := Some (map symbol (sorted elements));
        include_elems := include_elems self;
        exclude_elems := exclude_elems self |}.

End Fit.

End PartialRadialDistributionFunction.

(** ** class ElectronicRadialDistributionFunction *)

Module ElectronicRadialDistributionFunction.

Record t : Type := mk { cutoff : option Q; dr : Q }.

Definition __init__ (cutoff : option Q) (dr : Q) : result t :=
  Ok {| cutoff := cutoff; dr := dr |}.

(** The inner loop body: one neighbor of a site of charge [this_charge]. *)
Definition add_neighbor (self_dr : Q) (n_sites : nat) (this_charge : Q)
    (distribution : list Q) (neighbor : Site * Q) : result (list Q) :=
  let '(nnsite, dist) := neighbor in
  sp ← specie nnsite;
  neigh_charge ← oxi_state sp;
  let bin_index := py_int (float.truediv dist self_dr) in
  np.iadd distribution bin_index
          ((this_charge * neigh_charge) / (Qofnat n_sites * dist))%Q.

(** The outer loop body: one site of [struct]. *)
Definition add_site (self_dr cutoff : Q) (struct : Structure)
    (distribution : list Q) (site : Site) : result (list Q) :=
  sp ← specie site;
  this_charge ← oxi_state sp;
  let neighbors := get_neighbors struct site cutoff in
  foldM (add_neighbor self_dr (num_sites struct) this_charge)
        neighbors distribution.

(** Lines 312-326: the accumulation once [struct] and the cutoff are
    known. *)
Definition accumulate (self_dr cutoff : Q) (struct : Structure)
  : result (list Distribution) :=
  let nbins := (py_int (float.truediv cutoff self_dr) + 1)%Z in
  let centers :=
    map (fun i => ((Qofnat i + (1 # 2)) * self_dr)%Q) (seq 0 (Z.to_nat nbins)) in
  zeros ← np.zeros nbins;
  distribution ← foldM (add_site self_dr cutoff struct) (sites struct) zeros;
  Ok [ {| distances := centers; distribution := distribution |} ].

Section Featurize.
Context `{Pymatgen}.

(** The longest of the four space diagonals of the lattice. *)
Definition longest_diagonal (struct : Structure) : Q :=
  let '(a, b, c) := lattice_matrix struct in
  py_max (linalg_norm (vadd (vadd a b) c))
         [ linalg_norm (vadd (vadd (vneg a) b) c);
           linalg_norm (vadd (vsub a b) c);
           linalg_norm (vsub (vadd a b) c) ].

(** [featurize] may store the derived cutoff in [self]; the engine after
    the call is returned next to the outcome. *)
Definition featurize (self : t) (s : Structure) : t * result (list Distribution) :=
  if Qle_bool (dr self) 0 then (self, Raise InvalidConfiguration)
  else
    match (prim ← find_primitive s;
           valence_structure (default s prim)) with
    | Raise e => (self, Raise e)
    | Ok struct =>
      let cutoff' :=
        match cutoff self with
        | None => longest_diagonal struct
        | Some c => c
        end in
      ({| cutoff := Some cutoff'; dr := dr self |},
       accumulate (dr self) cutoff' struct)
    end.

End Featurize.

Definition feature_labels (self : t) : list string :=
  ["electronic radial distribution function"].

End ElectronicRadialDistributionFunction.

(** ** Notions used to state the properties *)

(** Membership of a bin: [lo <= d < hi], or [lo <= d <= hi] for a closed
    bin. *)
Definition in_bin (closed : bool) (lo hi d : Q) : bool :=
  Qle_bool lo d && (if closed then Qle_bool d hi else Qltb d hi).

(** The histogram a reader of numpy's documentation expects: every bin
    half-open but the last, which is closed. *)
Fixpoint bin_counts (a edges : list Q) : list Z :=
  match edges with
  | lo :: ((hi :: rest) as l') =>
      Z.of_nat (count_if (in_bin (match rest with [] => true | _ => false end) lo hi) a)
      :: bin_counts a l'
  | _ => []
  end.

(** The histogram the specification words: every bin half-open. *)
Fixpoint half_open_counts (a edges : list Q) : list Z :=
  match edges with
  | lo :: ((hi :: _) as l') =>
      Z.of_nat (count_if (in_bin false lo hi) a) :: half_open_counts a l'
  | _ => []
  end.

Definition Zsum (l : list Z) : Z := foldr Z.add 0%Z l.
Definition Qsum (l : list Q) : Q := foldr Qplus 0%Q l.

(** The number of edges that [np.arange(0, c + b, b)] computes. *)
Definition edge_count (c b : Q) : nat :=
  Z.to_nat (Qceiling (float.truediv (float.sub (float.add c b) 0) b)).

Definition first_edge (edges : list Q) : Q := List.hd 0%Q edges.
Definition last_edge (edges : list Q) : Q := List.last edges 0%Q.

(** Both elements of a pair are keys of the composition. *)
Definition known (comp : gmap string Q) (key : string * string) : Prop :=
  is_Some (comp !! key.1) /\ is_Some (comp !! key.2).

Global Instance known_dec comp key : Decision (known comp key).
Proof. unfold known. apply _. Defined.

(** Binomial coefficients, for the number of element pairs. *)
Fixpoint choose (n k : nat) : nat :=
  match k, n with
  | O, _ => 1
  | S _, O => 0
  | S k', S n' => choose n' k' + choose n' k
  end.

(** *** PRDF *)

(** The element symbol a site resolves to. *)
Definition symbol_of (site : Site) : string :=
  match PartialRadialDistributionFunction.get_symbol site with
  | Ok x => x
  | Raise _ => ""
  end.

(** The distances of the neighbors in [nlst] of a site of element [my]
    that belong to the ordered pair [key] = (origin, neighbor). *)
Definition neighbor_distances (my : string) (nlst : list (Site * Q))
    (key : string * string) : list Q :=
  omap (fun nb : Site * Q =>
          if decide ((my, symbol_of nb.1) = key) then Some nb.2 else None) nlst.

(** All distances of the structure from a site of element [key.1] to a
    neighbor of element [key.2], in site order. *)
Definition distances_of_pairs (pairs : list (Site * list (Site * Q)))
    (key : string * string) : list Q :=
  '(site, nlst) ← pairs; neighbor_distances (symbol_of site) nlst key.

Definition bucket (cutoff : Q) (s : Structure) (key : string * string) : list Q :=
  distances_of_pairs (zip (sites s) (get_all_neighbors s cutoff)) key.

(** A site resolves to an element of the composition. *)
Definition resolvesb (comp : gmap string Q) (site : Site) : bool :=
  match PartialRadialDistributionFunction.get_symbol site with
  | Ok sym => bool_decide (is_Some (comp !! sym))
  | Raise _ => false
  end.

(** Every site and every neighbor is an ordered site of an element that
    the reduced composition lists. *)
Definition consistentb (cutoff : Q) (s : Structure) : bool :=
  forallb (fun p : Site * list (Site * Q) =>
             resolvesb (to_reduced_dict s) p.1 &&
             forallb (fun nb : Site * Q => resolvesb (to_reduced_dict s) nb.1) p.2)
          (zip (sites s) (get_all_neighbors s cutoff)).

(** The block of the feature vector for one element pair, said directly:
    the normalised histogram of the pair's own bucket when both elements
    are in the composition, zeros otherwise. *)
Definition pair_block (self : PartialRadialDistributionFunction.t) (s : Structure)
    (key : string * string) : list Q :=
  match PartialRadialDistributionFunction._make_bins self with
  | Ok edges =>
      match to_reduced_dict s !! key.1, to_reduced_dict s !! key.2 with
      | Some c, Some _ =>
          normalize
            (bin_counts (bucket (PartialRadialDistributionFunction.cutoff self) s key) edges)
            (shell_volumes edges) (c * Qofnat (num_sites s))%Q
      | _, _ => replicate (length edges - 1) 0%Q
      end
  | Raise _ => []
  end.

(** The normalised histogram of the distances [ds] of pair [key]. *)
Definition block_of (comp : gmap string Q) (n : nat) (edges : list Q)
    (key : string * string) (ds : list Q) : list Q :=
  normalize (bin_counts ds edges) (shell_volumes edges)
            (default 0%Q (comp !! key.1) * Qofnat n)%Q.

(** [Element.__lt__] is a strict total order. *)
Definition strict_total_order `{Pymatgen} : Prop :=
  (forall x, element_ltb x x = false) /\
  (forall x y z, element_ltb x y = true -> element_ltb y z = true ->
                 element_ltb x z = true) /\
  (forall x y, element_ltb x y = false -> element_ltb y x = false -> x = y).

(** The element that a key of a composition stands for: the key itself
    when it is an element, and the element that carries the oxidation
    state when it is a specie. *)
Inductive element_of : Species -> Element -> Prop :=
  | element_of_element (e : Element) : element_of (Elem e) e
  | element_of_specie (e : Element) (q : Q) : element_of (Specie e q) e.

(** The elements observed in the compositions of the structures [X]. *)
Definition observed (X : list Structure) (e : Element) : Prop :=
  exists strc sp,
    strc ∈ X /\ sp ∈ composition_keys strc /\ element_of sp e.

(** *** ReDF *)

Definition charge_of (site : Site) : Q :=
  match specie site ≫= oxi_state with
  | Ok q => q
  | Raise _ => 0%Q
  end.

(** The terms that the neighbors [nbrs] of a site of charge [q] add to
    bin [b]. *)
Definition neighbor_terms (dr : Q) (n : nat) (q : Q) (nbrs : list (Site * Q))
    (b : nat) : list Q :=
  omap (fun nb : Site * Q =>
          if decide (Qfloor (float.truediv nb.2 dr) = Z.of_nat b)
          then Some (q * charge_of nb.1 / (Qofnat n * nb.2))%Q
          else None) nbrs.

(** The sum over every site and every one of its neighbors, so over
    ordered pairs, of the terms that fall into bin [b]. *)
Definition redf_bin (dr cutoff : Q) (struct : Structure) (b : nat) : Q :=
  Qsum (site ← sites struct;
        neighbor_terms dr (num_sites struct) (charge_of site)
                       (get_neighbors struct site cutoff) b).

Definition chargedb (site : Site) : bool :=
  match specie site ≫= oxi_state with
  | Ok _ => true
  | Raise _ => false
  end.

(** Every site and neighbor carries a charge and every neighbor distance
    lies in (0, cutoff], as the neighbor search promises. *)
Definition redf_inputs_ok (cutoff : Q) (struct : Structure) : bool :=
  forallb (fun site =>
             chargedb site &&
             forallb (fun nb : Site * Q =>
                        chargedb nb.1 && Qltb 0 nb.2 && Qle_bool nb.2 cutoff)
                     (get_neighbors struct site cutoff))
          (sites struct).

(** ** Sample engines and structures *)

Module Samples.

(** Elements ordered by their symbols, as one total order a periodic
    table may implement. *)
Definition by_symbol_ltb (x y : Element) : bool :=
  String.ltb (symbol x) (symbol y).

(** The square root of a rational square. *)
Definition exact_sqrt (q : Q) : Q :=
  let r := Qred q in Z.sqrt (Qnum r) # Pos.sqrt (Qden r).

(** Collaborators that leave the structure as it is. *)
Definition pymatgen : Pymatgen := {|
  valid_symbol := fun e => bool_decide (e ∈ ["Fe"; "Ni"; "O"; "Na"; "Cl"]);
  element_ltb := by_symbol_ltb;
  find_primitive := fun _ => Ok None;
  valence_structure := fun st => Ok st;
  linalg_norm := fun v => let '(x, y, z) := v in exact_sqrt (x * x + y * y + z * z)
|}.

Definition Fe : Element := mkElement "Fe".
Definition Ni : Element := mkElement "Ni".
Definition O : Element := mkElement "O".
Definition Na : Element := mkElement "Na".
Definition Cl : Element := mkElement "Cl".

Definition cubic_lattice : vec * vec * vec :=
  ((1, 0, 0), (0, 1, 0), (0, 0, 1))%Q.

(** Simple cubic iron with lattice parameter 1; the neighbor lists hold
    the first shell, which is all there is for a radius below the face
    diagonal. *)
Definition fe_site : Site := mkSite (Ok (Elem Fe)).
Definition fe_shell (r : Q) : list (Site * Q) :=
  if Qle_bool 1 r then replicate 6 (fe_site, 1%Q) else [].
Definition simple_cubic : Structure := {|
  is_ordered := true;
  sites := [fe_site];
  volume := 1;
  composition_keys := [Elem Fe];
  to_reduced_dict := {[ "Fe" := 1%Q ]};
  get_all_neighbors := fun r => [fe_shell r];
  get_neighbors := fun _ r => fe_shell r;
  lattice_matrix := cubic_lattice
|}.

(** Rock salt in units of the Na-Cl distance, first shell only, with
    oxidation states on the sites. *)
Definition na_site : Site := mkSite (Ok (Specie Na 1)).
Definition cl_site : Site := mkSite (Ok (Specie Cl (-1))).
Definition shell_of (nb : Site) (r : Q) : list (Site * Q) :=
  if Qle_bool 1 r then replicate 6 (nb, 1%Q) else [].
Definition rock_salt : Structure := {|
  is_ordered := true;
  sites := [na_site; cl_site];
  volume := 2;
  composition_keys := [Specie Na 1; Specie Cl (-1)];
  to_reduced_dict := {[ "Na" := (1 # 2)%Q; "Cl" := (1 # 2)%Q ]};
  get_all_neighbors := fun r => [shell_of cl_site r; shell_of na_site r];
  get_neighbors := fun site r =>
    match specie site with
    | Ok (Specie (mkElement "Na") _) => shell_of cl_site r
    | _ => shell_of na_site r
    end;
  lattice_matrix := cubic_lattice
|}.

(** Two structures with the compositions Fe-O and Fe-Ni; [fit] reads
    nothing but the keys of their compositions. *)
Definition with_composition (keys : list Species) : Structure := {|
  is_ordered := true;
  sites := map (fun sp => mkSite (Ok sp)) keys;
  volume := 1;
  composition_keys := keys;
  to_reduced_dict := ∅;
  get_all_neighbors := fun _ => map (fun _ => []) keys;
  get_neighbors := fun _ _ => [];
  lattice_matrix := cubic_lattice
|}.
Definition fe_o : Structure := with_composition [Elem Fe; Specie O (-2)].
Definition fe_ni : Structure := with_composition [Elem Fe; Elem Ni].

(** A disordered structure: one site shared by two elements, whose
    [specie] property raises. *)
Definition mixed_site : Site := mkSite (Raise AttributeError).
Definition disordered : Structure := {|
  is_ordered := false;
  sites := [mixed_site];
  volume := 1;
  composition_keys := [Elem Fe; Elem Ni];
  to_reduced_dict := {[ "Fe" := (1 # 2)%Q; "Ni" := (1 # 2)%Q ]};
  get_all_neighbors := fun r => [if Qle_bool 1 r then replicate 6 (mixed_site, 1%Q) else []];
  get_neighbors := fun _ r => if Qle_bool 1 r then replicate 6 (mixed_site, 1%Q) else [];
  lattice_matrix := cubic_lattice
|}.

Definition rdf : RadialDistributionFunction.t :=
  RadialDistributionFunction.mk (5 # 4) (1 # 2).
Definition prdf_unfitted : PartialRadialDistributionFunction.t :=
  PartialRadialDistributionFunction.mk (5 # 4) (1 # 2) None [] [].
Definition prdf_fitted (elems : list string) : PartialRadialDistributionFunction.t :=
  PartialRadialDistributionFunction.mk (5 # 4) (1 # 2) (Some elems) [] [].
Definition redf : ElectronicRadialDistributionFunction.t :=
  ElectronicRadialDistributionFunction.mk (Some (5 # 4)) (1 # 2).

End Samples.

(** ** class XRDPowderPattern *)

Module XRDPowderPattern.

(** A Python number: an [int] or a [float]. *)
Inductive pynum : Type :=
  | PyInt (z : Z)
  | PyFloat (q : Q).

Definition to_float (n : pynum) : Q :=
  match n with
  | PyInt z => inject_Z z
  | PyFloat q => q
  end.

(** [a - b] and [a + b]: an [int] when both are, a [float] otherwise. *)
Definition py_sub (a b : pynum) : pynum :=
  match a, b with
  | PyInt x, PyInt y => PyInt (x - y)
  | _, _ => PyFloat (to_float a - to_float b)
  end.
Definition py_add (a b : pynum) : pynum :=
  match a, b with
  | PyInt x, PyInt y => PyInt (x + y)
  | _, _ => PyFloat (to_float a + to_float b)
  end.

(** The truth value of a number, as [or] tests it. *)
Definition truthy (n : pynum) : bool :=
  match n with
  | PyInt z => negb (z =? 0)%Z
  | PyFloat q => negb (Qeq_bool q 0)
  end.

(** What a call ends in besides a value: the interpreter's [TypeError],
    or an exception of the kinds above. *)
Inductive error : Type :=
  | TypeError
  | Other (e : exn).

Inductive outcome (A : Type) : Type :=
  | Return (a : A)
  | Throw (e : error).
Arguments Return {A} a.
Arguments Throw {A} e.

Global Instance outcome_ret : MRet outcome := fun A a => Return a.
Global Instance outcome_bind : MBind outcome := fun A B k m =>
  match m with
  | Return a => k a
  | Throw e => Throw e
  end.

Definition returns {A} (m : outcome A) : Prop := exists a, m = Return a.

(** The collaborators of the class: pymatgen's [XRDCalculator], scipy's
    [gaussian_kde], whose result is the density it evaluates pointwise,
    and [np.linspace] when its count is a float, which numpy first
    deprecated and then rejected. *)
Class Collaborators : Type := {
  kwargs : Type;
  calculator : Type;
  XRDCalculator : kwargs -> outcome calculator;
  get_pattern :
    calculator -> Structure -> option (pynum * pynum) -> outcome (list Q * list Q);
  gaussian_kde : list Q -> Q -> outcome (Q -> Q);
  linspace_float_num : Q -> Q -> Q -> outcome (list Q)
}.

(** [two_theta_range[0]] and [two_theta_range[1]]. *)
Definition bound (i : bool) (two_theta_range : option (pynum * pynum))
  : outcome pynum :=
  match two_theta_range with
  | None => Throw TypeError
  | Some (lo, hi) => Return (if i then hi else lo)
  end.

(** [range(n)]. *)
Definition py_range (n : pynum) : outcome (list nat) :=
  match n with
  | PyInt z => Return (seq 0 (Z.to_nat z))
  | PyFloat _ => Throw TypeError
  end.

(** ['xrd_{}'.format(x)] for an [int] of a range. *)
Definition xrd_label (x : nat) : string := "xrd_" +:+ pretty x.

Section Class.
Context `{Collaborators}.

Record t : Type := mk {
  two_theta_range : option (pynum * pynum);
  bw_method : Q;
  pattern_length : pynum;
  xrd_calc : calculator
}.

(** [np.linspace(start, stop, num)]: [num] evenly spaced values from
    [start] to [stop], both included. *)
Definition linspace (start stop : Q) (num : pynum) : outcome (list Q) :=
  match num with
  | PyInt n =>
      if (n <? 0)%Z
      then Throw (Other (ValueError "Number of samples must be non-negative."))
      else
        let step := ((stop - start) / inject_Z (n - 1))%Q in
        Return (map (fun i => (start + Qofnat i * step)%Q) (seq 0 (Z.to_nat n)))
  | PyFloat q => linspace_float_num start stop q
  end.

Definition __init__ (two_theta_range : option (pynum * pynum)) (bw_method : Q)
    (pattern_length : option pynum) (kw : kwargs) : outcome t :=
  let default_length :=
    hi ← bound true two_theta_range;
    lo ← bound false two_theta_range;
    Return (py_add (py_sub hi lo) (PyInt 1)) in
  pattern_length ←
    match pattern_length with
    | Some n => if truthy n then Return n else default_length
    | None => default_length
    end;
  xrd_calc ← XRDCalculator kw;
  Return {| two_theta_range := two_theta_range; bw_method := bw_method;
            pattern_length := pattern_length; xrd_calc := xrd_calc |}.

(** Body of [for x1, y1 in zip(x, y)]. *)
Definition add_peak (hist : list Q) (peak : Q * Q) : list Q :=
  let '(x1, y1) := peak in
  let num := py_int y1 in
  hist ++ replicate (Z.to_nat num) x1.

Definition featurize (self : t) (strc : Structure) : outcome (list Q) :=
  '(x, y) ← get_pattern (xrd_calc self) strc (two_theta_range self);
  let hist := foldl add_peak [] (zip x y) in
  kernel ← gaussian_kde hist (bw_method self);
  lo ← bound false (two_theta_range self);
  hi ← bound true (two_theta_range self);
  x ← linspace (to_float lo) (to_float hi) (pattern_length self);
  let y := map kernel x in
  Return y.

Definition feature_labels (self : t) : outcome (list string) :=
  r ← py_range (pattern_length self);
  Return (map xrd_label r).

End Class.

End XRDPowderPattern.

(** ** Further notions and samples *)

(** The bin edges of a cutoff [c] and a positive bin width [b]. *)
Definition bin_edges (c b : Q) : list Q :=
  map (fun i => (0 + Qofnat i * b)%Q) (seq 0 (edge_count c b)).

(** All neighbor distances of a structure, site after site. *)
Definition all_distances (cutoff : Q) (s : Structure) : list Q :=
  concat (map (map snd) (get_all_neighbors s cutoff)).

(** The set of elements that [fit] gathers before it sorts them. *)
Definition gathered (include_elems exclude_elems : list string)
    (X : list Structure) : gset Element :=
  foldl (fun (acc : gset Element) strc =>
           acc ∪ list_to_set (map PartialRadialDistributionFunction.base_element
                                  (composition_keys strc)))
        (list_to_set (map mkElement include_elems)) X
  ∖ list_to_set (map mkElement exclude_elems).

(** The site resolves to some element symbol. *)
Definition symbol_okb (site : Site) : bool :=
  match PartialRadialDistributionFunction.get_symbol site with
  | Ok _ => true
  | Raise _ => false
  end.

(** Every site and every neighbor resolves to some element symbol. *)
Definition symbols_okb (cutoff : Q) (s : Structure) : bool :=
  forallb (fun p : Site * list (Site * Q) =>
             symbol_okb p.1 && forallb (fun nb : Site * Q => symbol_okb nb.1) p.2)
          (zip (sites s) (get_all_neighbors s cutoff)).

(** The (origin, neighbor) element pairs of the neighbor lists. *)
Definition neighbor_pairs (cutoff : Q) (s : Structure) : list (string * string) :=
  p ← zip (sites s) (get_all_neighbors s cutoff);
  map (fun nb : Site * Q => (symbol_of p.1, symbol_of nb.1)) p.2.

(** Every term the ReDF accumulates, over all sites and their neighbors. *)
Definition redf_terms (cutoff : Q) (struct : Structure) : list Q :=
  site ← sites struct;
  map (fun nb : Site * Q =>
         (charge_of site * charge_of nb.1 / (Qofnat (num_sites struct) * nb.2))%Q)
      (get_neighbors struct site cutoff).

(** The site is ordered, of whatever species. *)
Definition specie_okb (site : Site) : bool :=
  match specie site with
  | Ok _ => true
  | Raise _ => false
  end.

(** Every site and neighbor is ordered and every neighbor distance lies
    in (0, cutoff]. *)
Definition redf_geometry_ok (cutoff : Q) (struct : Structure) : bool :=
  forallb (fun site =>
             specie_okb site &&
             forallb (fun nb : Site * Q =>
                        specie_okb nb.1 && Qltb 0 nb.2 && Qle_bool nb.2 cutoff)
                     (get_neighbors struct site cutoff))
          (sites struct).

(** The site holds a plain element, without an oxidation state. *)
Definition plainb (site : Site) : bool :=
  match specie site with
  | Ok (Elem _) => true
  | _ => false
  end.

Module MoreSamples.

(** Iron whose neighbor search reports a nickel atom that the composition
    does not list. *)
Definition ni_site : Site := mkSite (Ok (Elem Samples.Ni)).
Definition stray_neighbor : Structure := {|
  is_ordered := true;
  sites := [Samples.fe_site];
  volume := 1;
  composition_keys := [Elem Samples.Fe];
  to_reduced_dict := {[ "Fe" := 1%Q ]};
  get_all_neighbors := fun _ => [[(ni_site, 1%Q)]];
  get_neighbors := fun _ _ => [(ni_site, 1%Q)];
  lattice_matrix := Samples.cubic_lattice
|}.

(** A cell of edges 1, 2, 2, whose four space diagonals have length 3. *)
Definition slab : Structure := {|
  is_ordered := true;
  sites := [Samples.na_site; Samples.cl_site];
  volume := 4;
  composition_keys := [Specie Samples.Na 1; Specie Samples.Cl (-1)];
  to_reduced_dict := {[ "Na" := (1 # 2)%Q; "Cl" := (1 # 2)%Q ]};
  get_all_neighbors := fun r => [Samples.shell_of Samples.cl_site r;
                                 Samples.shell_of Samples.na_site r];
  get_neighbors := get_neighbors Samples.rock_salt;
  lattice_matrix := ((1, 0, 0), (0, 2, 0), (0, 0, 2))%Q
|}.

(** One iron site with two neighbors, listed in either order. *)
Definition two_neighbors (nlst : list (Site * Q)) : Structure := {|
  is_ordered := true;
  sites := [Samples.fe_site];
  volume := 1;
  composition_keys := [Elem Samples.Fe];
  to_reduced_dict := {[ "Fe" := 1%Q ]};
  get_all_neighbors := fun _ => [nlst];
  get_neighbors := fun _ _ => nlst;
  lattice_matrix := Samples.cubic_lattice
|}.
Definition near_far : Structure :=
  two_neighbors [(Samples.fe_site, 1%Q); (Samples.fe_site, (5 # 4)%Q)].
Definition far_near : Structure :=
  two_neighbors [(Samples.fe_site, (5 # 4)%Q); (Samples.fe_site, 1%Q)].

Definition redf_auto : ElectronicRadialDistributionFunction.t :=
  ElectronicRadialDistributionFunction.mk None (1 # 2).

(** The floats that Python reads from the literals of the same value. *)
Definition float_0_05 : Q := binary64.round (1 # 20).
Definition float_0_1 : Q := binary64.round (1 # 10).
Definition float_0_2 : Q := binary64.round (2 # 10).
Definition float_0_3 : Q := binary64.round (3 # 10).
Definition float_0_9 : Q := binary64.round (9 # 10).
Definition float_8_1 : Q := binary64.round (81 # 10).

(** A ReDF with the cutoff 1.0 and the default bin width 0.05. *)
Definition redf_default_dr : ElectronicRadialDistributionFunction.t :=
  ElectronicRadialDistributionFunction.mk (Some 1%Q) float_0_05.

(** A diffraction calculator that reports two peaks, and a kernel
    estimate that is the constant density 1. *)
Definition xrd : XRDPowderPattern.Collaborators := {|
  XRDPowderPattern.kwargs := unit;
  XRDPowderPattern.calculator := unit;
  XRDPowderPattern.XRDCalculator := fun _ => XRDPowderPattern.Return tt;
  XRDPowderPattern.get_pattern := fun _ _ _ =>
    XRDPowderPattern.Return ([30; 45; 60]%Q, [100; 1 # 2; 2]%Q);
  XRDPowderPattern.gaussian_kde := fun _ _ => XRDPowderPattern.Return (fun _ => 1%Q);
  XRDPowderPattern.linspace_float_num := fun _ _ _ =>
    XRDPowderPattern.Throw XRDPowderPattern.TypeError
|}.

End MoreSamples.

(** * Properties *)

(** ** Rounding to binary64 *)

Section Rounding.
Import binary64.
Local Open Scope Q_scope.

Lemma two_pow_pos (e : Z) : 0 < 2 ^ e.
Proof. apply Qpower_0_lt. reflexivity. Qed.

Lemma two_pow_succ (e : Z) : 2 ^ (e + 1) == 2 * 2 ^ e.
Proof. rewrite Qpower_plus by discriminate. change (2 ^ 1) with 2. ring. Qed.

Lemma two_pow_pred (e : Z) : 2 ^ (e - 1) == 2 ^ e / 2.
Proof. rewrite Qpower_minus by discriminate. change (2 ^ 1) with 2. reflexivity. Qed.

Lemma two_pow_Z (k : Z) : (0 <= k)%Z -> inject_Z (2 ^ k) == 2 ^ k.
Proof. intros Hk. now rewrite Zpower_Qpower. Qed.

Lemma two_pow_lt_inv (n m : Z) : 2 ^ n < 2 ^ m -> (n < m)%Z.
Proof. intros H. apply (Qpower_lt_compat_l_inv 2); [exact H | reflexivity]. Qed.

Lemma two_pow_le (n m : Z) : (n <= m)%Z -> 2 ^ n <= 2 ^ m.
Proof. intros H. apply Qpower_le_compat_l; [exact H | discriminate]. Qed.

Lemma log2_bounds (n : Z) :
  (0 < n)%Z ->
  2 ^ Z.log2 n <= inject_Z n /\ inject_Z n < 2 * 2 ^ Z.log2 n.
Proof.
  intros Hn. destruct (Z.log2_spec n Hn) as [Hlo Hhi].
  pose proof (Z.log2_nonneg n) as H0.
  rewrite <- two_pow_succ, <- !two_pow_Z by lia. split.
  - now rewrite <- Zle_Qle.
  - rewrite <- Zlt_Qlt. exact Hhi.
Qed.

(** [exponent] finds the binade of a positive number. *)
Lemma exponent_spec (a : Q) :
  0 < a -> 2 ^ exponent a <= a /\ a < 2 ^ (exponent a + 1).
Proof.
  intros Ha. unfold exponent.
  set (ln := Z.log2 (Qnum a)). set (ld := Z.log2 (Zpos (Qden a))).
  assert (Hn : (0 < Qnum a)%Z).
  { destruct a as [n d]. unfold Qlt in Ha. simpl in *. lia. }
  destruct (log2_bounds (Qnum a) Hn) as [Hn1 Hn2].
  destruct (log2_bounds (Zpos (Qden a)) eq_refl) as [Hd1 Hd2].
  fold ln in Hn1, Hn2. fold ld in Hd1, Hd2.
  pose proof (two_pow_pos ln) as HP. pose proof (two_pow_pos ld) as HD.
  assert (Ha' : a == inject_Z (Qnum a) / inject_Z (Zpos (Qden a))).
  { destruct a as [n d]. simpl. apply Qmake_Qdiv. }
  assert (Hden : 0 < inject_Z (Zpos (Qden a))) by (rewrite <- (Zlt_Qlt 0); lia).
  assert (He : 2 ^ (ln - ld) == 2 ^ ln / 2 ^ ld) by (apply Qpower_minus; discriminate).
  assert (Hlt : a < 2 * 2 ^ (ln - ld)).
  { rewrite Ha', He. apply Qlt_shift_div_r; [exact Hden|].
    setoid_replace (2 * (2 ^ ln / 2 ^ ld) * inject_Z (Z.pos (Qden a)))
      with ((2 * 2 ^ ln) * (inject_Z (Z.pos (Qden a)) / 2 ^ ld))
      using relation Qeq by (field; lra).
    assert (1 <= inject_Z (Z.pos (Qden a)) / 2 ^ ld).
    { apply Qle_shift_div_l; lra. }
    nra. }
  assert (Hgt : 2 ^ (ln - ld) / 2 < a).
  { rewrite Ha', He. apply Qlt_shift_div_l; [exact Hden|].
    setoid_replace (2 ^ ln / 2 ^ ld / 2 * inject_Z (Z.pos (Qden a)))
      with (2 ^ ln * (inject_Z (Z.pos (Qden a)) / (2 * 2 ^ ld)))
      using relation Qeq by (field; lra).
    assert (inject_Z (Z.pos (Qden a)) / (2 * 2 ^ ld) < 1).
    { apply Qlt_shift_div_r; lra. }
    nra. }
  destruct (Qle_bool (2 ^ (ln - ld)) a) eqn:E.
  - apply Qle_bool_iff in E. rewrite two_pow_succ. split; assumption.
  - assert (a < 2 ^ (ln - ld)).
    { apply Qnot_le_lt. intros Hle. apply Qle_bool_iff in Hle. congruence. }
    replace (ln - ld - 1 + 1)%Z with (ln - ld)%Z by lia.
    rewrite two_pow_pred. split; [lra | assumption].
Qed.

Lemma exponent_unique (a : Q) (e : Z) :
  2 ^ e <= a -> a < 2 ^ (e + 1) -> exponent a = e.
Proof.
  intros Hlo Hhi.
  assert (Ha : 0 < a) by (pose proof (two_pow_pos e); lra).
  destruct (exponent_spec a Ha) as [Hlo' Hhi'].
  assert (e < exponent a + 1)%Z by (apply two_pow_lt_inv; lra).
  assert (exponent a < e + 1)%Z by (apply two_pow_lt_inv; lra).
  lia.
Qed.

Lemma exponent_comp (a b : Q) : 0 < a -> a == b -> exponent a = exponent b.
Proof.
  intros Ha Hab. symmetry. destruct (exponent_spec a Ha).
  apply exponent_unique; rewrite <- Hab; assumption.
Qed.

Lemma exponent_le (a b : Q) : 0 < a -> a <= b -> (exponent a <= exponent b)%Z.
Proof.
  intros Ha Hab. destruct (exponent_spec a Ha).
  destruct (exponent_spec b) as [? ?]; [lra|].
  assert (exponent a < exponent b + 1)%Z by (apply two_pow_lt_inv; lra). lia.
Qed.

Lemma rne_range (r : Q) : (Qfloor r <= rne r <= Qfloor r + 1)%Z.
Proof.
  unfold rne. destruct (Qcompare _ _); [destruct (Z.even _)|..]; lia.
Qed.

(** [rne] is a nearest integer, monotone, and fixes the integers. *)
Lemma rne_error (r : Q) :
  - (1 # 2) <= inject_Z (rne r) - r /\ inject_Z (rne r) - r <= 1 # 2.
Proof.
  pose proof (Qfloor_le r) as Hlo. pose proof (Qlt_floor r) as Hhi.
  rewrite inject_Z_plus in Hhi. change (inject_Z 1) with 1 in Hhi.
  unfold rne. destruct (Qcompare_spec (r - inject_Z (Qfloor r)) (1 # 2)) as [E|E|E].
  - destruct (Z.even _); [|rewrite inject_Z_plus; change (inject_Z 1) with 1]; lra.
  - lra.
  - rewrite inject_Z_plus. change (inject_Z 1) with 1. lra.
Qed.

Lemma rne_comp (r r' : Q) : r == r' -> rne r = rne r'.
Proof.
  intros H. unfold rne. rewrite (Qfloor_comp _ _ H).
  assert (Hc : Qcompare (r - inject_Z (Qfloor r')) (1 # 2)
               = Qcompare (r' - inject_Z (Qfloor r')) (1 # 2)).
  { apply Qcompare_comp; [now rewrite H | reflexivity]. }
  now rewrite Hc.
Qed.

Lemma rne_Z (k : Z) : rne (inject_Z k) = k.
Proof.
  unfold rne. rewrite Qfloor_Z.
  destruct (Qcompare_spec (inject_Z k - inject_Z k) (1 # 2)) as [E|E|E];
    [lra | reflexivity | lra].
Qed.

Lemma rne_le (r r' : Q) : r <= r' -> (rne r <= rne r')%Z.
Proof.
  intros H. pose proof (Qfloor_resp_le _ _ H) as Hf.
  pose proof (rne_range r). pose proof (rne_range r').
  destruct (Z.eq_dec (Qfloor r) (Qfloor r')) as [E|E]; [|lia].
  unfold rne. rewrite E.
  destruct (Qcompare_spec (r - inject_Z (Qfloor r')) (1 # 2)) as [E1|E1|E1];
    destruct (Qcompare_spec (r' - inject_Z (Qfloor r')) (1 # 2)) as [E2|E2|E2];
    try destruct (Z.even _); try lia; lra.
Qed.

Lemma round_0 (x : Q) : x == 0 -> round x = 0.
Proof. intros H. unfold round. apply Qeq_alt in H. now rewrite H. Qed.

Lemma round_pos (x : Q) :
  0 < x -> round x = inject_Z (rne (x / ulp x)) * ulp x.
Proof. intros H. unfold round. apply Qgt_alt in H. now rewrite H. Qed.

Lemma ulp_pos (a : Q) : 0 < ulp a.
Proof. apply two_pow_pos. Qed.

Lemma ulp_eq (a : Q) : ulp a == 2 ^ exponent a / 2 ^ 52.
Proof. unfold ulp. apply Qpower_minus. discriminate. Qed.

(** The scaled value lies in [2^52, 2^53) and its rounding in [2^52, 2^53]. *)
Lemma scaled_range (a : Q) :
  0 < a -> 2 ^ 52 <= a / ulp a /\ a / ulp a < 2 ^ 53.
Proof.
  intros Ha. destruct (exponent_spec a Ha) as [Hlo Hhi].
  rewrite two_pow_succ in Hhi.
  pose proof (two_pow_pos (exponent a)) as HP.
  pose proof (ulp_pos a) as Hu. pose proof (ulp_eq a) as Heq.
  assert (H52 : 2 ^ 52 == 4503599627370496) by reflexivity.
  assert (H53 : 2 ^ 53 == 9007199254740992) by reflexivity.
  rewrite H52 in Heq.
  split.
  - apply Qle_shift_div_l; [exact Hu|]. rewrite H52, Heq. 
    setoid_replace (4503599627370496 * (2 ^ exponent a / 4503599627370496))
      with (2 ^ exponent a) using relation Qeq by (field). exact Hlo.
  - apply Qlt_shift_div_r; [exact Hu|]. rewrite H53, Heq.
    setoid_replace (9007199254740992 * (2 ^ exponent a / 4503599627370496))
      with (2 * 2 ^ exponent a) using relation Qeq by (field). exact Hhi.
Qed.

Lemma mantissa_range (a : Q) :
  0 < a -> (2 ^ 52 <= rne (a / ulp a) <= 2 ^ 53)%Z.
Proof.
  intros Ha. destruct (scaled_range a Ha) as [Hlo Hhi].
  rewrite <- two_pow_Z in Hlo, Hhi by lia. split.
  - rewrite <- (rne_Z (2 ^ 52)). now apply rne_le.
  - rewrite <- (rne_Z (2 ^ 53)). apply rne_le. lra.
Qed.

Lemma round_range (a : Q) :
  0 < a -> 2 ^ exponent a <= round a /\ round a <= 2 ^ (exponent a + 1).
Proof.
  intros Ha. rewrite (round_pos a Ha). destruct (mantissa_range a Ha) as [Hlo Hhi].
  rewrite Zle_Qle in Hlo, Hhi.
  assert (H52 : inject_Z (2 ^ 52) == 4503599627370496) by reflexivity.
  assert (H53 : inject_Z (2 ^ 53) == 9007199254740992) by reflexivity.
  rewrite H52 in Hlo. rewrite H53 in Hhi.
  rewrite two_pow_succ.
  pose proof (two_pow_pos (exponent a)) as HP.
  pose proof (ulp_eq a) as Heq.
  assert (H52' : 2 ^ 52 == 4503599627370496) by reflexivity.
  rewrite H52' in Heq.
  set (m := inject_Z (rne (a / ulp a))) in *.
  set (P := 2 ^ exponent a) in *. rewrite Heq.
  split.
  - setoid_replace (m * (P / 4503599627370496))
      with (P * (m / 4503599627370496)) using relation Qeq by field.
    assert (1 <= m / 4503599627370496) by (apply Qle_shift_div_l; lra).
    nra.
  - setoid_replace (m * (P / 4503599627370496))
      with (P * (m / 4503599627370496)) using relation Qeq by field.
    assert (m / 4503599627370496 <= 2) by (apply Qle_shift_div_r; lra).
    nra.
Qed.

Lemma round_nonneg (x : Q) : 0 <= x -> 0 <= round x.
Proof.
  intros Hx. destruct (Qlt_le_dec 0 x) as [Hpos|Hle].
  - destruct (round_range x Hpos). pose proof (two_pow_pos (exponent x)). lra.
  - rewrite round_0; lra.
Qed.

Lemma round_gt_0 (x : Q) : 0 < x -> 0 < round x.
Proof.
  intros Hpos. destruct (round_range x Hpos). pose proof (two_pow_pos (exponent x)). lra.
Qed.

(** Rounding depends on the value only, not on the fraction that
    denotes it. *)
Lemma round_comp (x y : Q) : 0 <= x -> x == y -> round x == round y.
Proof.
  intros Hx Hxy. destruct (Qlt_le_dec 0 x) as [Hpos|Hle].
  - rewrite (round_pos x Hpos), (round_pos y) by lra.
    unfold ulp. rewrite <- (exponent_comp x y Hpos Hxy).
    rewrite (rne_comp (x / 2 ^ (exponent x - 52)) (y / 2 ^ (exponent x - 52))).
    + reflexivity.
    + unfold Qdiv. apply Qmult_comp; [exact Hxy | reflexivity].
  - rewrite (round_0 x), (round_0 y) by lra. reflexivity.
Qed.

(** Rounding is monotone. *)
Lemma round_le (x y : Q) : 0 <= x -> x <= y -> round x <= round y.
Proof.
  intros Hx Hxy. destruct (Qlt_le_dec 0 x) as [Hpos|Hle].
  - assert (Hy : 0 < y) by lra.
    pose proof (exponent_le x y Hpos Hxy) as He.
    destruct (Z.eq_dec (exponent x) (exponent y)) as [E|E].
    + rewrite (round_pos x Hpos), (round_pos y Hy). unfold ulp. rewrite <- E.
      pose proof (two_pow_pos (exponent x - 52)) as Hu.
      apply Qmult_le_compat_r; [|lra].
      rewrite <- Zle_Qle. apply rne_le.
      apply Qle_shift_div_l; [exact Hu|].
      setoid_replace (x / 2 ^ (exponent x - 52) * 2 ^ (exponent x - 52)) with x
        using relation Qeq by (field; lra).
      exact Hxy.
    + destruct (round_range x Hpos) as [_ Hhi]. destruct (round_range y Hy) as [Hlo _].
      assert (2 ^ (exponent x + 1) <= 2 ^ exponent y) by (apply two_pow_le; lia).
      lra.
  - rewrite (round_0 x) by lra. apply round_nonneg. lra.
Qed.

(** The relative error of a rounding is at most [2^-53]. *)
Lemma round_error (x : Q) :
  0 <= x ->
  x * (1 - unit_roundoff) <= round x /\ round x <= x * (1 + unit_roundoff).
Proof.
  intros Hx.
  assert (Hur : unit_roundoff == 1 # 9007199254740992) by reflexivity.
  rewrite Hur.
  destruct (Qlt_le_dec 0 x) as [Hpos|Hle].
  - rewrite (round_pos x Hpos).
    destruct (rne_error (x / ulp x)) as [Hlo Hhi].
    destruct (exponent_spec x Hpos) as [He _].
    pose proof (ulp_pos x) as Hu. pose proof (ulp_eq x) as Heq.
    assert (H52 : 2 ^ 52 == 4503599627370496) by reflexivity.
    rewrite H52 in Heq.
    assert (Hx' : (x / ulp x) * ulp x == x) by (field; lra).
    assert (Hhalf : ulp x * (1 # 2) <= x * (1 # 9007199254740992)).
    { setoid_replace (ulp x * (1 # 2))
        with (2 ^ exponent x * (1 # 9007199254740992))
        using relation Qeq by (rewrite Heq; field).
      apply Qmult_le_compat_r; [exact He | discriminate]. }
    pose proof (Qmult_le_compat_r _ _ (ulp x) Hhi (Qlt_le_weak _ _ Hu)) as Hd1.
    pose proof (Qmult_le_compat_r _ _ (ulp x) Hlo (Qlt_le_weak _ _ Hu)) as Hd2.
    clear He Heq H52 Hlo Hhi.
    generalize dependent (inject_Z (rne (x / ulp x))). intros m.
    generalize dependent (x / ulp x). intros r.
    generalize dependent (ulp x). intros w Hw Hrw Hhalf Hd1 Hd2.
    split; lra.
  - rewrite (round_0 x) by lra. split; lra.
Qed.

(** A number with an integer significand is a float: it rounds to
    itself.  So do the integers up to [2^53] and every result of a
    rounding. *)
Lemma round_fixed (a : Q) (k : Z) :
  0 < a -> a / ulp a == inject_Z k -> round a == a.
Proof.
  intros Ha Hk. rewrite (round_pos a Ha), (rne_comp _ _ Hk), rne_Z, <- Hk.
  pose proof (ulp_pos a). field. lra.
Qed.

Lemma round_Z (z : Z) :
  (0 <= z <= 2 ^ 53)%Z -> round (inject_Z z) == inject_Z z.
Proof.
  intros [Hz0 Hz].
  destruct (Z.eq_dec z 0%Z) as [->|Hnz]; [reflexivity|].
  assert (Hpos : 0 < inject_Z z) by (rewrite <- (Zlt_Qlt 0); lia).
  destruct (exponent_spec _ Hpos) as [Hlo Hhi].
  set (e := exponent (inject_Z z)) in *.
  assert (Hz53 : inject_Z z <= 2 ^ 53).
  { rewrite <- two_pow_Z by lia. now rewrite <- Zle_Qle. }
  assert (He : (e < 54)%Z).
  { apply two_pow_lt_inv. rewrite (two_pow_succ 53). lra. }
  destruct (Z_le_gt_dec e 52%Z) as [Hsmall|Hbig].
  - apply (round_fixed _ (z * 2 ^ (52 - e))); [exact Hpos|].
    unfold ulp. fold e. replace (e - 52)%Z with (- (52 - e))%Z by lia.
    rewrite Qpower_opp, inject_Z_mult, two_pow_Z by lia.
    pose proof (two_pow_pos (52 - e)). field. lra.
  - assert (He53 : e = 53%Z) by lia. rewrite He53 in Hlo.
    assert (Hz' : z = (2 ^ 53)%Z).
    { rewrite <- two_pow_Z, <- Zle_Qle in Hlo by lia. lia. }
    subst z. apply (round_fixed _ (2 ^ 52)); [exact Hpos|].
    unfold ulp. fold e. rewrite He53. reflexivity.
Qed.

Lemma round_idem (x : Q) : 0 <= x -> round (round x) == round x.
Proof.
  intros Hx. destruct (Qlt_le_dec 0 x) as [Hpos|Hle].
  2:{ rewrite (round_0 x) by lra. reflexivity. }
  pose proof (round_gt_0 x Hpos) as Hr.
  destruct (mantissa_range x Hpos) as [Hm1 Hm2].
  pose proof (round_pos x Hpos) as Heq.
  set (m := rne (x / ulp x)) in *. set (e := exponent x).
  pose proof (two_pow_pos (e - 52)) as Hu.
  assert (H52 : 2 ^ 52 == 4503599627370496) by reflexivity.
  assert (Hulp : ulp x == 2 ^ e / 4503599627370496) by (rewrite <- H52; apply ulp_eq).
  pose proof (two_pow_pos e) as HP.
  destruct (Z.eq_dec m (2 ^ 53)%Z) as [Etop|Etop].
  - assert (Hval : round x == 2 ^ (e + 1)).
    { rewrite Heq, Etop, Hulp, two_pow_succ.
      change (inject_Z (2 ^ 53)) with 9007199254740992. field. }
    assert (Hexp : exponent (round x) = (e + 1)%Z).
    { apply exponent_unique; rewrite Hval; [lra|].
      rewrite (two_pow_succ (e + 1)). pose proof (two_pow_pos (e + 1)). lra. }
    apply (round_fixed _ (2 ^ 52)); [exact Hr|].
    unfold ulp. rewrite Hexp, Hval.
    replace (e + 1 - 52)%Z with ((e + 1) - 52)%Z by lia.
    rewrite (Qpower_minus 2 (e + 1) 52) by discriminate.
    pose proof (two_pow_pos (e + 1)).
    change (inject_Z (2 ^ 52)) with 4503599627370496. rewrite H52. field. lra.
  - assert (Hm : (m < 2 ^ 53)%Z) by lia.
    assert (Hmq1 : 4503599627370496 <= inject_Z m).
    { change 4503599627370496 with (inject_Z (2 ^ 52)). now rewrite <- Zle_Qle. }
    assert (Hmq2 : inject_Z m < 9007199254740992).
    { change 9007199254740992 with (inject_Z (2 ^ 53)). now rewrite <- Zlt_Qlt. }
    assert (Hval : round x == 2 ^ e * (inject_Z m / 4503599627370496)).
    { rewrite Heq, Hulp. field. }
    assert (Hexp : exponent (round x) = e).
    { apply exponent_unique; rewrite Hval.
      - assert (1 <= inject_Z m / 4503599627370496) by (apply Qle_shift_div_l; lra). nra.
      - rewrite two_pow_succ.
        assert (inject_Z m / 4503599627370496 < 2) by (apply Qlt_shift_div_r; lra). nra. }
    apply (round_fixed _ m); [exact Hr|].
    unfold ulp. rewrite Hexp. fold e. rewrite Heq. unfold ulp. fold e. field. lra.
Qed.

End Rounding.

(** ** Rational arithmetic *)

Lemma Qltb_lt x y : Qltb x y = true <-> (x < y)%Q.
Proof.
  unfold Qltb. rewrite negb_true_iff, <- not_true_iff_false, Qle_bool_iff.
  split; [apply Qnot_le_lt | apply Qlt_not_le].
Qed.

Lemma Qltb_ge x y : Qltb x y = false <-> (y <= x)%Q.
Proof. unfold Qltb. rewrite negb_false_iff. apply Qle_bool_iff. Qed.

Lemma Qle_bool_gt x y : Qle_bool x y = false <-> (y < x)%Q.
Proof.
  rewrite <- not_true_iff_false, Qle_bool_iff.
  split; [apply Qnot_le_lt | apply Qlt_not_le].
Qed.

Ltac Qbool :=
  repeat match goal with
  | H : Qltb _ _ = true |- _ => apply Qltb_lt in H
  | H : Qltb _ _ = false |- _ => apply Qltb_ge in H
  | H : Qle_bool _ _ = true |- _ => apply Qle_bool_iff in H
  | H : Qle_bool _ _ = false |- _ => apply Qle_bool_gt in H
  end.

(** ** numpy.histogram *)

Lemma count_if_cons p x l :
  count_if p (x :: l) = ((if p x then 1 else 0) + count_if p l)%nat.
Proof. unfold count_if. simpl. destruct (p x); reflexivity. Qed.

Lemma count_between (closed : bool) lo hi a :
  (lo <= hi)%Q ->
  ((if closed then np.searchsorted_right a hi else np.searchsorted_left a hi)
   - np.searchsorted_left a lo)%Z
  = Z.of_nat (count_if (in_bin closed lo hi) a).
Proof.
  intros Hle. unfold np.searchsorted_right, np.searchsorted_left.
  induction a as [|d a IH].
  - destruct closed; reflexivity.
  - rewrite !count_if_cons.
    change (in_bin closed lo hi d)
      with (Qle_bool lo d && (if closed then Qle_bool d hi else Qltb d hi)).
    destruct closed; rewrite ?count_if_cons.
    + destruct (Qle_bool d hi) eqn:E1, (Qltb d lo) eqn:E2, (Qle_bool lo d) eqn:E3;
        Qbool; simpl; try lia; exfalso; lra.
    + destruct (Qltb d hi) eqn:E1, (Qltb d lo) eqn:E2, (Qle_bool lo d) eqn:E3;
        Qbool; simpl; try lia; exfalso; lra.
Qed.

Lemma last_cons_default {A} (l : list A) x y :
  List.last (y :: l) x = List.last l y.
Proof.
  revert x y. induction l as [|z l IH]; intros x y; [reflexivity|].
  change (List.last (y :: z :: l) x) with (List.last (z :: l) x).
  now rewrite (IH x z), (IH y z).
Qed.

Lemma last_slice_cons {A} (x y : A) l :
  np.last_slice (x :: y :: l) = np.last_slice (y :: l).
Proof. unfold np.last_slice. now rewrite last_cons_default. Qed.

Lemma search_sorted_inclusive_cons a lo hi rest :
  np.search_sorted_inclusive a (lo :: hi :: rest)
  = np.searchsorted_left a lo :: np.search_sorted_inclusive a (hi :: rest).
Proof.
  unfold np.search_sorted_inclusive. now rewrite last_slice_cons.
Qed.

Lemma search_sorted_inclusive_head a hi rest :
  exists tl,
    np.search_sorted_inclusive a (hi :: rest)
    = (match rest with
       | [] => np.searchsorted_right a hi
       | _ => np.searchsorted_left a hi
       end) :: tl.
Proof. destruct rest; eexists; reflexivity. Qed.

Lemma diff_cumulative a edges :
  np.decreases edges = false ->
  np.diff (np.search_sorted_inclusive a edges) = bin_counts a edges.
Proof.
  induction edges as [|lo [|hi rest] IH]; intros Hmono; try reflexivity.
  simpl in Hmono. apply orb_false_iff in Hmono as [Hle Hmono]. Qbool.
  rewrite search_sorted_inclusive_cons.
  destruct (search_sorted_inclusive_head a hi rest) as [tl Htl].
  specialize (IH Hmono). rewrite Htl in IH |- *.
  change (bin_counts a (lo :: hi :: rest))
    with (Z.of_nat (count_if (in_bin (match rest with [] => true | _ => false end) lo hi) a)
          :: bin_counts a (hi :: rest)).
  rewrite <- IH. cbn [np.diff]. f_equal.
  destruct rest; [apply (count_between true) | apply (count_between false)]; exact Hle.
Qed.

Lemma histogram_counts a edges :
  np.decreases edges = false ->
  np.histogram a edges = Ok (bin_counts a edges, edges).
Proof.
  intros Hmono. unfold np.histogram. rewrite Hmono.
  now rewrite diff_cumulative.
Qed.

Lemma bin_counts_length a edges : length (bin_counts a edges) = (length edges - 1)%nat.
Proof.
  induction edges as [|lo [|hi rest] IH]; try reflexivity.
  change (bin_counts a (lo :: hi :: rest))
    with (Z.of_nat (count_if (in_bin (match rest with [] => true | _ => false end) lo hi) a)
          :: bin_counts a (hi :: rest)).
  cbn [length] in *. rewrite IH. lia.
Qed.

Lemma bin_counts_lookup a edges i lo hi :
  edges !! i = Some lo -> edges !! S i = Some hi ->
  bin_counts a edges !! i
  = Some (Z.of_nat (count_if (in_bin (bool_decide (S (S i) = length edges)) lo hi) a)).
Proof.
  revert i. induction edges as [|e0 [|e1 rest] IH]; intros i Hlo Hhi.
  { destruct i; simplify_eq/=. }
  { destruct i as [|[|i]]; simplify_eq/=. }
  destruct i as [|i].
  - simplify_eq/=. destruct rest; reflexivity.
  - specialize (IH i Hlo Hhi).
    change (bin_counts a (e0 :: e1 :: rest) !! S i) with (bin_counts a (e1 :: rest) !! i).
    rewrite IH. do 3 f_equal. f_equal. apply bool_decide_ext. cbn [length]. lia.
Qed.

Lemma decreases_head_le_last x l :
  np.decreases (x :: l) = false -> (x <= List.last l x)%Q.
Proof.
  revert x. induction l as [|y l IH]; intros x Hmono.
  - apply Qle_refl.
  - simpl in Hmono. apply orb_false_iff in Hmono as [Hle Hmono]. Qbool.
    specialize (IH y Hmono).
    rewrite (last_cons_default l x y).
    eapply Qle_trans; [exact Hle | exact IH].
Qed.

Lemma count_split closed lo mid hi a :
  (lo <= mid)%Q -> (mid <= hi)%Q ->
  (count_if (in_bin false lo mid) a + count_if (in_bin closed mid hi) a
   = count_if (in_bin closed lo hi) a)%nat.
Proof.
  intros H1 H2. induction a as [|d a IH]; [reflexivity|].
  rewrite !count_if_cons, <- IH. unfold in_bin.
  destruct closed;
    repeat match goal with
    | |- context [Qle_bool ?u ?v] => let E := fresh in destruct (Qle_bool u v) eqn:E
    | |- context [Qltb ?u ?v] => let E := fresh in destruct (Qltb u v) eqn:E
    end; Qbool; simpl; try lia; exfalso; lra.
Qed.

Lemma bin_counts_sum a x y l :
  np.decreases (x :: y :: l) = false ->
  Zsum (bin_counts a (x :: y :: l))
  = Z.of_nat (count_if (in_bin true x (List.last (y :: l) x)) a).
Proof.
  revert x y. induction l as [|z l IH]; intros x y Hmono.
  - simpl. lia.
  - assert (Hmono' : np.decreases (y :: z :: l) = false).
    { simpl in Hmono |- *. apply orb_false_iff in Hmono. tauto. }
    assert (Hxy : (x <= y)%Q).
    { simpl in Hmono. apply orb_false_iff in Hmono as [Hle _]. now Qbool. }
    change (bin_counts a (x :: y :: z :: l))
      with (Z.of_nat (count_if (in_bin false x y) a) :: bin_counts a (y :: z :: l)).
    cbn [Zsum foldr]. fold (Zsum (bin_counts a (y :: z :: l))).
    rewrite (IH y z Hmono').
    rewrite <- Nat2Z.inj_add.
    rewrite (last_cons_default (z :: l) x y).
    rewrite count_split; [reflexivity | exact Hxy |].
    rewrite <- (last_cons_default (z :: l) y y).
    change (List.last (y :: z :: l) y) with (List.last (z :: l) y).
    now apply decreases_head_le_last.
Qed.

(** C1, amended.  For non-decreasing edges the raw histogram counts bin
    [i] over the half-open interval [edges[i], edges[i+1]) except for the
    last bin, which is the closed interval and so includes values equal
    to the final edge; with at least two edges the counts sum to the
    number of distances between the first and the last edge, both
    inclusive. *)
Theorem C1_histogram_last_bin_closed (a edges : list Q) :
  np.decreases edges = false ->
  exists hist,
    np.histogram a edges = Ok (hist, edges) /\
    length hist = (length edges - 1)%nat /\
    (forall i lo hi,
        edges !! i = Some lo -> edges !! S i = Some hi ->
        hist !! i
        = Some (Z.of_nat
                  (count_if (in_bin (bool_decide (S (S i) = length edges)) lo hi) a))) /\
    ((2 <= length edges)%nat ->
     Zsum hist
     = Z.of_nat (count_if (in_bin true (first_edge edges) (last_edge edges)) a)).
Proof.
  intros Hmono. exists (bin_counts a edges).
  split; [now apply histogram_counts|].
  split; [apply bin_counts_length|].
  split; [intros i lo hi; apply bin_counts_lookup|].
  intros Hlen. destruct edges as [|x [|y l]]; cbn [length] in Hlen; try lia.
  rewrite (bin_counts_sum a x y l Hmono).
  unfold first_edge, last_edge. cbn [List.hd].
  now rewrite !(last_cons_default (y :: l)).
Qed.

Lemma C1_histogram_last_bin_closed_witness :
  np.decreases [0; 1; 2]%Q = false /\
  exists hist,
    np.histogram [2; 1; 1 # 2]%Q [0; 1; 2]%Q = Ok (hist, [0; 1; 2]%Q) /\
    length hist = (length [0; 1; 2]%Q - 1)%nat /\
    (forall i lo hi,
        [0; 1; 2]%Q !! i = Some lo -> [0; 1; 2]%Q !! S i = Some hi ->
        hist !! i
        = Some (Z.of_nat
                  (count_if (in_bin (bool_decide (S (S i) = length [0; 1; 2]%Q)) lo hi)
                            [2; 1; 1 # 2]%Q))) /\
    ((2 <= length [0; 1; 2]%Q)%nat ->
     Zsum hist
     = Z.of_nat (count_if (in_bin true (first_edge [0; 1; 2]%Q) (last_edge [0; 1; 2]%Q))
                          [2; 1; 1 # 2]%Q)).
Proof.
  split; [reflexivity|].
  apply (C1_histogram_last_bin_closed [2; 1; 1 # 2]%Q [0; 1; 2]%Q). reflexivity.
Defined.

(** C1 as worded fails: a distance equal to the final edge is counted in
    the last bin, so the counts are not the all-half-open ones and their
    sum exceeds the number of distances strictly below the final edge. *)
Lemma C1_counterexample :
  np.histogram [2]%Q [0; 1; 2]%Q = Ok ([0; 1]%Z, [0; 1; 2]%Q) /\
  half_open_counts [2]%Q [0; 1; 2]%Q = [0; 0]%Z /\
  Zsum [0; 1]%Z <> Z.of_nat (count_if (fun d => Qltb d (last_edge [0; 1; 2]%Q)) [2]%Q).
Proof. repeat split; try reflexivity. vm_compute. discriminate. Qed.

(** The same in the RDF: with cutoff 1 and bin size 1/2 the six nearest
    neighbors of simple cubic iron, at the distance 1 of the final edge,
    are the count of the last bin. *)
Example rdf_counts_final_edge :
  np.histogram (concat (map (map snd) (get_all_neighbors Samples.simple_cubic 1)))
               [0 + 0 * (1 # 2); 0 + 1 * (1 # 2); 0 + 2 * (1 # 2)]%Q
  = Ok ([0; 6]%Z, [0 + 0 * (1 # 2); 0 + 1 * (1 # 2); 0 + 2 * (1 # 2)]%Q) /\
  np.arange 0 (float.add 1 (1 # 2)) (1 # 2)
  = Ok [0 + 0 * (1 # 2); 0 + 1 * (1 # 2); 0 + 2 * (1 # 2)]%Q.
Proof. split; reflexivity. Qed.

(** ** numpy.arange and the bin edges *)

Lemma Qofnat_lt i j : (i < j)%nat -> (Qofnat i < Qofnat j)%Q.
Proof. intros Hij. unfold Qofnat. rewrite <- Zlt_Qlt. lia. Qed.

Lemma Qofnat_le i j : (i <= j)%nat -> (Qofnat i <= Qofnat j)%Q.
Proof. intros Hij. unfold Qofnat. rewrite <- Zle_Qle. lia. Qed.

(** *** float arithmetic *)

Section Float_arithmetic.
Local Open Scope Q_scope.

Lemma unit_roundoff_eq : binary64.unit_roundoff == 1 # 9007199254740992.
Proof. reflexivity. Qed.

Lemma float_add_nonneg x y : 0 <= x + y -> 0 <= float.add x y.
Proof. apply round_nonneg. Qed.

Lemma float_add_pos x y : 0 < x + y -> 0 < float.add x y.
Proof. apply round_gt_0. Qed.

Lemma quotient_nonneg x d : 0 <= x -> 0 < d -> 0 <= x / d.
Proof. intros Hx Hd. apply Qle_shift_div_l; [exact Hd | lra]. Qed.

Lemma quotient_le x y d : 0 < d -> x <= y -> x / d <= y / d.
Proof.
  intros Hd Hxy. apply Qle_shift_div_l; [exact Hd|].
  setoid_replace (x / d * d) with x using relation Qeq by (field; lra). exact Hxy.
Qed.

Lemma truediv_nonneg x d : 0 <= x -> 0 < d -> 0 <= float.truediv x d.
Proof. intros Hx Hd. apply round_nonneg. now apply quotient_nonneg. Qed.

(** Division by a positive float is monotone: rounding is. *)
Lemma truediv_le x y d :
  0 < d -> 0 <= x -> x <= y -> float.truediv x d <= float.truediv y d.
Proof.
  intros Hd Hx Hxy. apply round_le; [now apply quotient_nonneg | now apply quotient_le].
Qed.

(** The integer part of a rounded quotient is the integer part of the
    exact one, or the next integer when the rounding reaches it. *)
Lemma truediv_floor x d :
  0 < d -> 0 <= x -> x / d < inject_Z (2 ^ 53) ->
  (Qfloor (x / d) <= Qfloor (float.truediv x d) <= Qfloor (x / d) + 1)%Z.
Proof.
  intros Hd Hx Hbig.
  pose proof (quotient_nonneg x d Hx Hd) as H0.
  pose proof (Qfloor_le (x / d)) as Hlo. pose proof (Qlt_floor (x / d)) as Hhi.
  assert (Hk0 : (0 <= Qfloor (x / d))%Z).
  { rewrite <- (Qfloor_Z 0). now apply Qfloor_resp_le. }
  assert (Hk1 : (Qfloor (x / d) < 2 ^ 53)%Z).
  { rewrite Zlt_Qlt. eapply Qle_lt_trans; [exact Hlo | exact Hbig]. }
  assert (H1 : inject_Z (Qfloor (x / d)) <= float.truediv x d).
  { rewrite <- (round_Z (Qfloor (x / d))) by lia.
    apply round_le; [|exact Hlo]. rewrite <- (Zle_Qle 0). exact Hk0. }
  assert (H2 : float.truediv x d <= inject_Z (Qfloor (x / d) + 1)).
  { rewrite <- (round_Z (Qfloor (x / d) + 1)) by lia.
    apply round_le; [exact H0 | now apply Qlt_le_weak]. }
  split.
  - rewrite <- (Qfloor_Z (Qfloor (x / d))) at 1. now apply Qfloor_resp_le.
  - rewrite <- (Qfloor_Z (Qfloor (x / d) + 1)). now apply Qfloor_resp_le.
Qed.

(** The difference [stop - 0] that [np.arange] takes is exact. *)
Lemma edge_count_eq c b :
  0 <= c + b -> 0 < b ->
  edge_count c b = Z.to_nat (Qceiling (float.truediv (float.add c b) b)).
Proof.
  intros Hcb Hb. unfold edge_count. f_equal. apply Qceiling_comp.
  pose proof (float_add_nonneg c b Hcb) as Hs.
  assert (Hsub : float.sub (float.add c b) 0 == float.add c b).
  { unfold float.sub.
    rewrite (round_comp (float.add c b - 0) (float.add c b)) by lra.
    now apply round_idem. }
  unfold float.truediv. apply round_comp.
  - apply quotient_nonneg; [lra | exact Hb].
  - unfold Qdiv. apply Qmult_comp; [exact Hsub | reflexivity].
Qed.

Lemma edge_count_pos c b : 0 < c + b -> 0 < b -> (1 <= edge_count c b)%nat.
Proof.
  intros Hcb Hb. rewrite edge_count_eq by lra.
  assert (Hq : 0 < float.truediv (float.add c b) b).
  { apply round_gt_0. apply Qlt_shift_div_l; [exact Hb|].
    pose proof (float_add_pos c b Hcb). lra. }
  pose proof (Qle_ceiling (float.truediv (float.add c b) b)) as Hc.
  assert (0 < Qceiling (float.truediv (float.add c b) b))%Z.
  { rewrite Zlt_Qlt. eapply Qlt_le_trans; [exact Hq | exact Hc]. }
  lia.
Qed.

(** Two roundings move the quotient [(c + b) / b] by less than one, as
    long as it stays below [2^50]. *)
Lemma edge_count_bounds c b :
  0 < c -> 0 < b -> c / b < inject_Z (2 ^ 50) ->
  (Qfloor (c / b) + 1 <= Z.of_nat (edge_count c b) <= Qfloor (c / b) + 3)%Z.
Proof.
  intros Hc Hb Hbig. rewrite edge_count_eq by lra.
  pose proof (quotient_nonneg c b (Qlt_le_weak _ _ Hc) Hb) as Hx0.
  pose proof (Qfloor_le (c / b)) as Hk1. pose proof (Qlt_floor (c / b)) as Hk2.
  rewrite inject_Z_plus in Hk2. change (inject_Z 1) with 1 in Hk2.
  assert (Hk0 : (0 <= Qfloor (c / b))%Z).
  { rewrite <- (Qfloor_Z 0). now apply Qfloor_resp_le. }
  destruct (round_error (c + b)) as [Hs1 Hs2]; [lra|].
  fold (float.add c b) in Hs1, Hs2.
  pose proof (float_add_nonneg c b) as Hs0.
  assert (Ht1 : (c / b + 1) * (1 - binary64.unit_roundoff) <= float.add c b / b).
  { apply Qle_shift_div_l; [exact Hb|].
    setoid_replace ((c / b + 1) * (1 - binary64.unit_roundoff) * b)
      with ((c + b) * (1 - binary64.unit_roundoff)) using relation Qeq by (field; lra).
    exact Hs1. }
  assert (Ht2 : float.add c b / b <= (c / b + 1) * (1 + binary64.unit_roundoff)).
  { apply Qle_shift_div_r; [exact Hb|].
    setoid_replace ((c / b + 1) * (1 + binary64.unit_roundoff) * b)
      with ((c + b) * (1 + binary64.unit_roundoff)) using relation Qeq by (field; lra).
    exact Hs2. }
  destruct (round_error (float.add c b / b)) as [Hq1 Hq2].
  { apply quotient_nonneg; [apply Hs0; lra | exact Hb]. }
  fold (float.truediv (float.add c b) b) in Hq1, Hq2.
  pose proof (Qle_ceiling (float.truediv (float.add c b) b)) as Hce.
  assert (H50 : inject_Z (2 ^ 50) == 1125899906842624) by reflexivity.
  rewrite H50 in Hbig. rewrite unit_roundoff_eq in Ht1, Ht2, Hq1, Hq2.
  clear Hs1 Hs2 Hs0.
  generalize dependent (float.truediv (float.add c b) b). intros q Hq1 Hq2 Hce.
  generalize dependent (float.add c b / b). intros t Ht1 Ht2 Hq1 Hq2.
  generalize dependent (c / b). intros x Hbig Hx0 Hk0' Hk1 Hk2 Ht1 Ht2.
  assert (Hlow : inject_Z (Qfloor x) < q) by lra.
  assert (Hupp : q <= inject_Z (Qfloor x + 3)).
  { rewrite inject_Z_plus. change (inject_Z 3) with 3. lra. }
  assert (Qfloor x < Qceiling q)%Z.
  { rewrite Zlt_Qlt. eapply Qlt_le_trans; [exact Hlow | exact Hce]. }
  assert (Qceiling q <= Qfloor x + 3)%Z.
  { rewrite <- (Qceiling_Z (Qfloor x + 3)). now apply Qceiling_resp_le. }
  lia.
Qed.

End Float_arithmetic.

Lemma arange_bins c b :
  (0 < b)%Q ->
  np.arange 0 (float.add c b) b
  = Ok (map (fun i => (0 + Qofnat i * b)%Q) (seq 0 (edge_count c b))).
Proof.
  intros Hb. unfold np.arange, edge_count.
  destruct (Qeq_bool b 0) eqn:E; [apply Qeq_bool_eq in E; lra|].
  reflexivity.
Qed.

(** From here on the count is used through the three lemmas above. *)
Global Opaque edge_count.

Lemma ramp_lookup (b : Q) n i x :
  map (fun i => (0 + Qofnat i * b)%Q) (seq 0 n) !! i = Some x ->
  x = (0 + Qofnat i * b)%Q /\ (i < n)%nat.
Proof.
  rewrite list_lookup_fmap. intros Hx.
  destruct (seq 0 n !! i) as [k|] eqn:Hk; [|discriminate].
  apply lookup_seq in Hk as [-> Hlt]. simpl in Hx. now simplify_eq.
Qed.

Lemma ramp_increasing (b : Q) n i j x y :
  (0 < b)%Q -> (i < j)%nat ->
  map (fun i => (0 + Qofnat i * b)%Q) (seq 0 n) !! i = Some x ->
  map (fun i => (0 + Qofnat i * b)%Q) (seq 0 n) !! j = Some y ->
  (x < y)%Q.
Proof.
  intros Hb Hij Hx Hy.
  apply ramp_lookup in Hx as [-> _]. apply ramp_lookup in Hy as [-> _].
  pose proof (Qofnat_lt i j Hij) as Hlt.
  apply (Qmult_lt_compat_r _ _ b Hb) in Hlt. lra.
Qed.

Lemma ramp_not_decreasing (b : Q) k n :
  (0 < b)%Q ->
  np.decreases (map (fun i => (0 + Qofnat i * b)%Q) (seq k n)) = false.
Proof.
  intros Hb. revert k. induction n as [|n IH]; intros k; [reflexivity|].
  destruct n as [|n]; [reflexivity|].
  specialize (IH (S k)).
  change (seq k (S (S n))) with (k :: seq (S k) (S n)).
  change (seq (S k) (S n)) with (S k :: seq (S (S k)) n) in IH |- *.
  cbn [map np.decreases] in IH |- *. rewrite IH, orb_false_r.
  apply Qltb_ge.
  pose proof (Qofnat_le k (S k) (Nat.le_succ_diag_r k)) as Hle.
  apply (Qmult_le_compat_r _ _ b) in Hle; lra.
Qed.

(** C2, amended.  For [cutoff > 0] and [bin_size > 0] the edge
    construction of [_make_bins], which is the [np.arange] expression the
    RDF uses too, returns [ceil((cutoff + bin_size) / bin_size)] values,
    the sum and the quotient being the float ones: at least one value,
    and, for [cutoff / bin_size < 2^50], between
    [floor(cutoff/bin_size) + 1] and [floor(cutoff/bin_size) + 3] of
    them.  The values start at 0 and increase strictly. *)
Theorem C2_make_bins_count (self : PartialRadialDistributionFunction.t) :
  let c := PartialRadialDistributionFunction.cutoff self in
  let b := PartialRadialDistributionFunction.bin_size self in
  (0 < c)%Q -> (0 < b)%Q ->
  exists edges,
    PartialRadialDistributionFunction._make_bins self = Ok edges /\
    np.arange 0 (float.add c b) b = Ok edges /\
    length edges = Z.to_nat (Qceiling (float.truediv (float.add c b) b)) /\
    (1 <= length edges)%nat /\
    ((c / b < inject_Z (2 ^ 50))%Q ->
     (Qfloor (c / b) + 1 <= Z.of_nat (length edges) <= Qfloor (c / b) + 3)%Z) /\
    (forall i j x y, (i < j)%nat ->
        edges !! i = Some x -> edges !! j = Some y -> (x < y)%Q) /\
    (exists e0, edges !! 0%nat = Some e0 /\ (e0 == 0)%Q).
Proof.
  intros c b Hc Hb.
  assert (Hcb : (0 < c + b)%Q) by lra.
  pose proof (edge_count_pos c b Hcb Hb) as Hpos.
  eexists. split; [apply (arange_bins c b Hb)|].
  split; [apply (arange_bins c b Hb)|].
  rewrite length_map, length_seq.
  split; [apply edge_count_eq; [lra | exact Hb]|].
  split; [exact Hpos|].
  split; [intros Hbig; by apply edge_count_bounds|].
  split.
  { intros i j x y. now apply ramp_increasing. }
  exists (0 + Qofnat 0 * b)%Q. split.
  - rewrite list_lookup_fmap, lookup_seq_lt; [reflexivity | lia].
  - unfold Qofnat. simpl. ring.
Qed.

Lemma C2_make_bins_count_witness :
  let self := PartialRadialDistributionFunction.mk (5 # 2) 1 None [] [] in
  let c := PartialRadialDistributionFunction.cutoff self in
  let b := PartialRadialDistributionFunction.bin_size self in
  ((0 < c)%Q /\ (0 < b)%Q) /\
  exists edges,
    PartialRadialDistributionFunction._make_bins self = Ok edges /\
    np.arange 0 (float.add c b) b = Ok edges /\
    length edges = Z.to_nat (Qceiling (float.truediv (float.add c b) b)) /\
    (1 <= length edges)%nat /\
    ((c / b < inject_Z (2 ^ 50))%Q ->
     (Qfloor (c / b) + 1 <= Z.of_nat (length edges) <= Qfloor (c / b) + 3)%Z) /\
    (forall i j x y, (i < j)%nat ->
        edges !! i = Some x -> edges !! j = Some y -> (x < y)%Q) /\
    (exists e0, edges !! 0%nat = Some e0 /\ (e0 == 0)%Q).
Proof.
  split; [split; reflexivity|].
  apply (C2_make_bins_count (PartialRadialDistributionFunction.mk (5 # 2) 1 None [] []));
    reflexivity.
Defined.

(** C2 as worded fails: with [cutoff = 2] and [bin_size = 1], where the
    sum and the quotient are exact, the edges are the three values
    0, 1, 2, not [floor(2/1) + 2 = 4] values. *)
Lemma C2_counterexample :
  exists edges,
    PartialRadialDistributionFunction._make_bins
      (PartialRadialDistributionFunction.mk 2 1 None [] []) = Ok edges /\
    np.arange 0 (float.add 2 1) 1 = Ok edges /\
    length edges = 3%nat /\
    Z.of_nat (length edges) <> (Qfloor (2 / 1) + 2)%Z.
Proof.
  exists (map (fun i => (0 + Qofnat i * 1)%Q) (seq 0 3)).
  split; [vm_compute; reflexivity|]. split; [vm_compute; reflexivity|].
  split; [reflexivity|]. vm_compute. discriminate.
Qed.

(** ** The RDF *)

Lemma cube_diff_length edges : length (np.cube_diff edges) = (length edges - 1)%nat.
Proof.
  induction edges as [|lo [|hi rest] IH]; try reflexivity.
  change (np.cube_diff (lo :: hi :: rest))
    with ((hi ^ 3 - lo ^ 3)%Q :: np.cube_diff (hi :: rest)).
  cbn [length] in *. rewrite IH. lia.
Qed.

Lemma cube_diff_lookup edges i lo hi :
  edges !! i = Some lo -> edges !! S i = Some hi ->
  np.cube_diff edges !! i = Some (hi ^ 3 - lo ^ 3)%Q.
Proof.
  revert i. induction edges as [|e0 [|e1 rest] IH]; intros i Hlo Hhi.
  { destruct i; simplify_eq/=. }
  { destruct i as [|[|i]]; simplify_eq/=. }
  destruct i as [|i].
  - now simplify_eq/=.
  - exact (IH i Hlo Hhi).
Qed.

Lemma shell_volumes_lookup edges i lo hi :
  edges !! i = Some lo -> edges !! S i = Some hi ->
  shell_volumes edges !! i = Some (4 / 3 * math_pi * (hi ^ 3 - lo ^ 3))%Q.
Proof.
  intros Hlo Hhi. unfold shell_volumes.
  now rewrite list_lookup_fmap, (cube_diff_lookup edges i lo hi Hlo Hhi).
Qed.

Lemma shell_volumes_length edges : length (shell_volumes edges) = (length edges - 1)%nat.
Proof. unfold shell_volumes. now rewrite length_map, cube_diff_length. Qed.

Lemma normalize_length a edges density :
  length (normalize (bin_counts a edges) (shell_volumes edges) density)
  = (length edges - 1)%nat.
Proof.
  unfold normalize.
  rewrite length_zip_with, bin_counts_length, shell_volumes_length. lia.
Qed.

Lemma normalize_lookup a edges density i lo hi :
  edges !! i = Some lo -> edges !! S i = Some hi ->
  normalize (bin_counts a edges) (shell_volumes edges) density !! i
  = Some (inject_Z (Z.of_nat (count_if (in_bin (bool_decide (S (S i) = length edges)) lo hi) a))
          / (4 / 3 * math_pi * (hi ^ 3 - lo ^ 3)) / density)%Q.
Proof.
  intros Hlo Hhi. unfold normalize.
  rewrite lookup_zip_with, (bin_counts_lookup a edges i lo hi Hlo Hhi),
    (shell_volumes_lookup edges i lo hi Hlo Hhi).
  reflexivity.
Qed.

(** C3.  On an ordered structure with at least one site and a positive
    bin width, the RDF returns, for bin [i] between the edges [lo] and
    [hi], the raw count divided by the shell volume
    [4/3*pi*(hi^3 - lo^3)] and by the number density [num_sites/volume];
    nothing divides by the total count, and a bin with count 0 has value
    0. *)
Theorem C3_rdf_normalization (self : RadialDistributionFunction.t) (s : Structure) :
  let c := RadialDistributionFunction.cutoff self in
  let b := RadialDistributionFunction.bin_size self in
  let all_distances := concat (map (map snd) (get_all_neighbors s c)) in
  is_ordered s = true ->
  (0 < b)%Q ->
  get_all_neighbors s c <> [] ->
  exists edges rdf,
    np.arange 0 (float.add c b) b = Ok edges /\
    RadialDistributionFunction.featurize self s
    = Ok [ {| distances := np.but_last edges; distribution := rdf |} ] /\
    length rdf = (length edges - 1)%nat /\
    forall i lo hi,
      edges !! i = Some lo -> edges !! S i = Some hi ->
      let count :=
        Z.of_nat (count_if (in_bin (bool_decide (S (S i) = length edges)) lo hi)
                           all_distances) in
      exists v,
        rdf !! i = Some v /\
        v = (inject_Z count / (4 / 3 * math_pi * (hi ^ 3 - lo ^ 3))
             / (Qofnat (num_sites s) / volume s))%Q /\
        (count = 0%Z -> (v == 0)%Q).
Proof.
  intros c b all_distances Hord Hb Hsites.
  pose proof (arange_bins c b Hb) as Hbins.
  set (edges := map (fun i => (0 + Qofnat i * b)%Q)
                    (seq 0 (edge_count c b))) in *.
  assert (Hmono : np.decreases edges = false) by now apply ramp_not_decreasing.
  exists edges,
    (normalize (bin_counts all_distances edges) (shell_volumes edges)
               (Qofnat (num_sites s) / volume s)).
  split; [exact Hbins|]. split.
  - unfold RadialDistributionFunction.featurize. rewrite Hord. cbn [negb].
    fold c b.
    assert (Hcat : np.concatenate (map (map snd) (get_all_neighbors s c))
                   = Ok all_distances).
    { unfold np.concatenate, all_distances.
      destruct (get_all_neighbors s c); [contradiction | reflexivity]. }
    rewrite Hcat, Hbins. cbn [mbind result_bind].
    rewrite (histogram_counts all_distances edges Hmono). reflexivity.
  - split; [apply normalize_length|].
    intros i lo hi Hlo Hhi count. eexists. split; [|split; [reflexivity|]].
    + now apply normalize_lookup.
    + fold count. intros ->. unfold Qdiv. simpl. ring.
Qed.

(** ** The PRDF: the dictionary of distances by element pair *)

Section PRDF_properties.
Import PartialRadialDistributionFunction.

Lemma bind_Ok {A B} (a : A) (k : A -> result B) : (Ok a ≫= k) = k a.
Proof. reflexivity. Qed.

Lemma foldl_insert_nil_lookup (l : list (string * string))
    (m : gmap (string * string) (list Q)) key :
  foldl (fun dbt p => <[p := []]> dbt) m l !! key
  = if decide (key ∈ l) then Some [] else m !! key.
Proof.
  revert m. induction l as [|p l IH]; intros m; simpl.
  - destruct (decide (key ∈ [])) as [Hin|Hin]; [by apply elem_of_nil in Hin | done].
  - rewrite IH. destruct (decide (key ∈ l)) as [Hin|Hnin].
    + rewrite decide_True; [done | by right].
    + destruct (decide (p = key)) as [->|Hne].
      * rewrite lookup_insert_eq. rewrite decide_True; [done | by left].
      * rewrite lookup_insert_ne by done.
        rewrite decide_False; [done|]. intros Hin. inv Hin; done.
Qed.

Lemma elem_of_product {A B} (l1 : list A) (l2 : list B) a b :
  (a, b) ∈ itertools.product l1 l2 <-> a ∈ l1 /\ b ∈ l2.
Proof.
  unfold itertools.product. rewrite list_elem_of_bind. split.
  - intros (x & Hin & Hx). apply list_elem_of_bind in Hin as (y & Hin & Hy).
    apply list_elem_of_singleton in Hin. by simplify_eq.
  - intros [Ha Hb]. exists a. split; [|done].
    apply list_elem_of_bind. exists b. split; [|done].
    by apply list_elem_of_singleton.
Qed.

Lemma elem_of_composition_keys (comp : gmap string Q) k :
  k ∈ (map_to_list comp).*1 <-> is_Some (comp !! k).
Proof.
  rewrite list_elem_of_fmap. split.
  - intros ([k' v] & -> & Hin). apply elem_of_map_to_list in Hin. by exists v.
  - intros [v Hv]. exists (k, v). split; [done|]. by apply elem_of_map_to_list.
Qed.

Lemma empty_buckets_lookup comp key :
  empty_buckets comp !! key = if decide (known comp key) then Some [] else None.
Proof.
  unfold empty_buckets. rewrite foldl_insert_nil_lookup, lookup_empty.
  destruct key as [a b].
  destruct (decide (known comp (a, b))) as [Hk|Hk].
  - rewrite decide_True; [done|]. apply elem_of_product.
    by rewrite !elem_of_composition_keys.
  - rewrite decide_False; [done|]. intros Hin. apply Hk.
    apply elem_of_product in Hin. by rewrite !elem_of_composition_keys in Hin.
Qed.

Lemma resolvesb_spec comp site :
  resolvesb comp site = true ->
  get_symbol site = Ok (symbol_of site) /\ is_Some (comp !! symbol_of site).
Proof.
  unfold resolvesb, symbol_of. destruct (get_symbol site) as [sym|]; [|done].
  intros Hs. split; [done|]. by apply bool_decide_eq_true in Hs.
Qed.

Lemma neighbor_distances_cons (my : string) (nb : Site * Q) nlst key :
  neighbor_distances my (nb :: nlst) key
  = (if decide ((my, symbol_of nb.1) = key) then [nb.2] else [])
    ++ neighbor_distances my nlst key.
Proof. unfold neighbor_distances. simpl. by case_decide. Qed.

(** The inner loop appends, to every bucket, exactly the distances of
    the neighbors that belong to it, and creates no bucket. *)
Lemma collect_neighbors_spec (comp : gmap string Q) (my : string)
    (nlst : list (Site * Q)) (dbt : gmap (string * string) (list Q)) :
  is_Some (comp !! my) ->
  (forall key, known comp key -> is_Some (dbt !! key)) ->
  forallb (fun nb : Site * Q => resolvesb comp nb.1) nlst = true ->
  exists dbt',
    foldM (collect_neighbor my) nlst dbt = Ok dbt' /\
    forall key,
      dbt' !! key = (fun l => l ++ neighbor_distances my nlst key) <$> dbt !! key.
Proof.
  intros Hmy. revert dbt. induction nlst as [|nb nlst IH]; intros dbt Hdom Hres.
  - exists dbt. split; [done|]. intros key.
    destruct (dbt !! key) as [l|]; simpl; [|done].
    unfold neighbor_distances. simpl. by rewrite app_nil_r.
  - simpl in Hres. apply andb_true_iff in Hres as [Hnb Hres].
    apply resolvesb_spec in Hnb as [Hsym Hin].
    destruct (Hdom (my, symbol_of nb.1)) as [l Hl]; [by split|].
    set (dbt1 := <[(my, symbol_of nb.1) := l ++ [nb.2]]> dbt).
    assert (Hstep : collect_neighbor my dbt nb = Ok dbt1).
    { unfold collect_neighbor. rewrite Hsym, bind_Ok.
      unfold append_distance. by rewrite Hl. }
    destruct (IH dbt1) as (dbt' & Hfold & Hlk); [|done|].
    { intros key Hk. unfold dbt1.
      destruct (decide ((my, symbol_of nb.1) = key)) as [->|Hne].
      - rewrite lookup_insert_eq. by eexists.
      - rewrite lookup_insert_ne by done. by apply Hdom. }
    exists dbt'. split.
    { cbn [foldM]. by rewrite Hstep, bind_Ok. }
    intros key. rewrite Hlk, neighbor_distances_cons. unfold dbt1.
    destruct (decide ((my, symbol_of nb.1) = key)) as [<-|Hne].
    + rewrite lookup_insert_eq, Hl. simpl. by rewrite <- app_assoc.
    + rewrite lookup_insert_ne by done. done.
Qed.

Lemma distances_of_pairs_cons (p : Site * list (Site * Q)) pairs key :
  distances_of_pairs (p :: pairs) key
  = neighbor_distances (symbol_of p.1) p.2 key ++ distances_of_pairs pairs key.
Proof. by destruct p. Qed.

(** The outer loop: every bucket ends up extended by the distances from
    sites of its origin element to neighbors of its neighbor element. *)
Lemma collect_sites_spec (comp : gmap string Q)
    (pairs : list (Site * list (Site * Q)))
    (dbt : gmap (string * string) (list Q)) :
  (forall key, known comp key -> is_Some (dbt !! key)) ->
  forallb (fun p : Site * list (Site * Q) =>
             resolvesb comp p.1 &&
             forallb (fun nb : Site * Q => resolvesb comp nb.1) p.2) pairs = true ->
  exists dbt',
    foldM collect_site pairs dbt = Ok dbt' /\
    forall key,
      dbt' !! key
      = (fun l => l ++ distances_of_pairs pairs key) <$> dbt !! key.
Proof.
  revert dbt. induction pairs as [|[site nlst] pairs IH]; intros dbt Hdom Hres.
  - exists dbt. split; [done|]. intros key.
    destruct (dbt !! key) as [l|]; simpl; [|done]. by rewrite app_nil_r.
  - simpl in Hres. apply andb_true_iff in Hres as [Hs Hres].
    apply andb_true_iff in Hs as [Hsite Hnbrs].
    apply resolvesb_spec in Hsite as [Hsym Hin].
    destruct (collect_neighbors_spec comp (symbol_of site) nlst dbt Hin Hdom Hnbrs)
      as (dbt1 & Hinner & Hlk1).
    destruct (IH dbt1) as (dbt' & Hfold & Hlk); [|done|].
    { intros key Hk. rewrite Hlk1. destruct (Hdom key Hk) as [l ->]. by eexists. }
    exists dbt'. split.
    { assert (Hstep : collect_site dbt (site, nlst) = Ok dbt1).
      { change (collect_site dbt (site, nlst))
          with (get_symbol site ≫= fun my_elem => foldM (collect_neighbor my_elem) nlst dbt).
        by rewrite Hsym, bind_Ok. }
      cbn [foldM]. by rewrite Hstep, bind_Ok. }
    intros key. rewrite Hlk, Hlk1, distances_of_pairs_cons.
    destruct (dbt !! key) as [l|]; simpl; [|done]. by rewrite <- app_assoc.
Qed.

Lemma collect_sites_buckets (c : Q) (s : Structure) :
  consistentb c s = true ->
  exists dbt,
    foldM collect_site (zip (sites s) (get_all_neighbors s c))
          (empty_buckets (to_reduced_dict s)) = Ok dbt /\
    forall key,
      dbt !! key
      = if decide (known (to_reduced_dict s) key) then Some (bucket c s key) else None.
Proof.
  intros Hcons.
  destruct (collect_sites_spec (to_reduced_dict s)
              (zip (sites s) (get_all_neighbors s c))
              (empty_buckets (to_reduced_dict s)))
    as (dbt & Hfold & Hlk); [|exact Hcons|].
  { intros key Hk. rewrite empty_buckets_lookup, decide_True by done. by eexists. }
  exists dbt. split; [done|]. intros key.
  rewrite Hlk, empty_buckets_lookup. by case_decide.
Qed.

Lemma histogram_pairs_fold (comp : gmap string Q) (n : nat) (edges : list Q)
    (l : list ((string * string) * list Q))
    (acc : gmap (string * string) (list Q)) :
  np.decreases edges = false ->
  (forall item, item ∈ l -> is_Some (comp !! item.1.1)) ->
  foldM (histogram_pair comp n (shell_volumes edges)) l (acc, edges)
  = Ok (foldl (fun m item => <[item.1 := block_of comp n edges item.1 item.2]> m) acc l,
        edges).
Proof.
  intros Hmono. revert acc. induction l as [|[key ds] l IH]; intros acc Hkeys; [done|].
  destruct (Hkeys (key, ds)) as [c Hc]; [by left|]. simpl in Hc.
  assert (Hstep : histogram_pair comp n (shell_volumes edges) (acc, edges) (key, ds)
                  = Ok (<[key := block_of comp n edges key ds]> acc, edges)).
  { unfold histogram_pair. rewrite (histogram_counts ds edges Hmono), bind_Ok.
    unfold getitem, block_of. by rewrite Hc. }
  cbn [foldM]. rewrite Hstep, bind_Ok. cbn [foldl].
  apply IH. intros item Hin. apply Hkeys. by right.
Qed.

Lemma foldl_insert_lookup {V W} (f : string * string -> V -> W)
    (l : list ((string * string) * V)) (acc : gmap (string * string) W) key :
  NoDup l.*1 ->
  foldl (fun m item => <[item.1 := f item.1 item.2]> m) acc l !! key
  = match (list_to_map l : gmap (string * string) V) !! key with
    | Some v => Some (f key v)
    | None => acc !! key
    end.
Proof.
  revert acc. induction l as [|[k v] l IH]; intros acc Hnd; [done|].
  apply NoDup_cons in Hnd as [Hk Hnd]. cbn [foldl]. rewrite (IH _ Hnd).
  rewrite list_to_map_cons. simpl.
  destruct (decide (k = key)) as [->|Hne].
  - rewrite (not_elem_of_list_to_map_1 l key Hk), !lookup_insert_eq. done.
  - rewrite !lookup_insert_ne by done. done.
Qed.

Lemma compute_prdf_spec (self : t) (s : Structure) :
  (0 < bin_size self)%Q ->
  consistentb (cutoff self) s = true ->
  exists edges prdf,
    _make_bins self = Ok edges /\
    compute_prdf self s = Ok (np.but_last edges, prdf) /\
    forall key,
      prdf !! key
      = if decide (known (to_reduced_dict s) key)
        then Some (block_of (to_reduced_dict s) (num_sites s) edges key
                            (bucket (cutoff self) s key))
        else None.
Proof.
  intros Hb Hcons.
  destruct (collect_sites_buckets (cutoff self) s Hcons) as (dbt & Hfold & Hdbt).
  pose proof (arange_bins (cutoff self) (bin_size self) Hb) as Hbins.
  set (edges := map (fun i => (0 + Qofnat i * bin_size self)%Q)
                    (seq 0 (edge_count (cutoff self) (bin_size self)))) in *.
  assert (Hmono : np.decreases edges = false) by now apply ramp_not_decreasing.
  exists edges. eexists. split; [exact Hbins|]. split.
  - unfold compute_prdf. rewrite Hfold, bind_Ok.
    unfold _make_bins at 1. rewrite Hbins, bind_Ok.
    rewrite (histogram_pairs_fold _ _ edges _ ∅ Hmono); [reflexivity|].
    intros [key ds] Hin. apply elem_of_map_to_list in Hin. simpl.
    rewrite Hdbt in Hin. case_decide as Hk; [|done]. apply Hk.
  - intros key. rewrite foldl_insert_lookup by apply NoDup_fst_map_to_list.
    rewrite list_to_map_to_list, Hdbt, lookup_empty. by case_decide.
Qed.

Lemma zeros_like_but_last edges :
  np.zeros_like (np.but_last edges) = replicate (length edges - 1) 0%Q.
Proof.
  unfold np.zeros_like, np.but_last.
  induction edges as [|x [|y l] IH]; try reflexivity.
  change (removelast (x :: y :: l)) with (x :: removelast (y :: l)).
  cbn [map length] in *. rewrite IH.
  replace (S (S (length l)) - 1)%nat with (S (S (length l) - 1)) by lia.
  reflexivity.
Qed.

Lemma cwr2_nil_iff {A} (l : list A) :
  itertools.combinations_with_replacement2 l = [] <-> l = [].
Proof. destruct l; [done|]. split; discriminate. Qed.

Lemma hstack_map {A B} (f : A -> list B) (l : list A) :
  l <> [] -> np.hstack (map f l) = Ok (concat (map f l)).
Proof. by destruct l. Qed.

(** What [featurize] returns, block by block. *)
Lemma featurize_blocks (self : t) (s : Structure) elems :
  is_ordered s = true ->
  elements_ self = Some elems ->
  elems <> [] ->
  (0 < bin_size self)%Q ->
  consistentb (cutoff self) s = true ->
  featurize self s
  = Ok (concat (map (pair_block self s)
                    (itertools.combinations_with_replacement2 elems))).
Proof.
  intros Hord Hfit Hne Hb Hcons.
  destruct (compute_prdf_spec self s Hb Hcons) as (edges & prdf & Hbins & Hprdf & Hlk).
  unfold featurize. rewrite Hord, Hfit, Hprdf. cbn [negb]. rewrite bind_Ok.
  rewrite hstack_map by (by rewrite cwr2_nil_iff).
  f_equal. f_equal. apply map_ext. intros key.
  rewrite Hlk. unfold pair_block. rewrite Hbins, zeros_like_but_last.
  destruct (decide (known (to_reduced_dict s) key)) as [[[c Hc] [c' Hc']]|Hk].
  - rewrite Hc, Hc'. simpl. unfold block_of. by rewrite Hc.
  - simpl. destruct (to_reduced_dict s !! key.1) as [c|] eqn:Hc; [|done].
    destruct (to_reduced_dict s !! key.2) as [c'|] eqn:Hc'; [|done].
    exfalso. apply Hk. split; by eexists.
Qed.

Lemma choose_1 n : choose n 1 = n.
Proof. induction n as [|n IH]; [done|]. simpl. destruct n; simpl in *; lia. Qed.

Lemma cwr2_length {A} (l : list A) :
  length (itertools.combinations_with_replacement2 l) = choose (length l + 1) 2.
Proof.
  induction l as [|x l IH]; [done|].
  cbn [itertools.combinations_with_replacement2].
  rewrite length_app, length_map, IH. cbn [length].
  replace (S (length l) + 1)%nat with (S (length l + 1)) by lia.
  change (choose (S (length l + 1)) 2) with (choose (length l + 1) 1 + choose (length l + 1) 2)%nat.
  rewrite choose_1. lia.
Qed.


Lemma pair_block_length (self : t) (s : Structure) edges key :
  _make_bins self = Ok edges ->
  length (pair_block self s key) = (length edges - 1)%nat.
Proof.
  intros Hbins. unfold pair_block. rewrite Hbins.
  destruct (to_reduced_dict s !! key.1); [|by rewrite length_replicate].
  destruct (to_reduced_dict s !! key.2); [|by rewrite length_replicate].
  apply normalize_length.
Qed.

Lemma pair_block_absent (self : t) (s : Structure) edges key :
  _make_bins self = Ok edges ->
  ~ known (to_reduced_dict s) key ->
  pair_block self s key = replicate (length edges - 1) 0%Q.
Proof.
  intros Hbins Hk. unfold pair_block. rewrite Hbins.
  destruct (to_reduced_dict s !! key.1) as [c|] eqn:Hc; [|done].
  destruct (to_reduced_dict s !! key.2) as [c'|] eqn:Hc'; [|done].
  exfalso. apply Hk. split; by eexists.
Qed.

Lemma concat_length_uniform {A B} (f : A -> list B) (l : list A) n :
  (forall x, length (f x) = n) -> length (concat (map f l)) = (length l * n)%nat.
Proof.
  intros Hf. induction l as [|x l IH]; [done|].
  cbn [map concat length]. rewrite length_app, Hf, IH. lia.
Qed.

(** C4, amended.  Once fitted with a vocabulary of [k >= 1] elements and
    configured with a positive bin width, [featurize] returns, for every
    ordered structure whose sites and neighbors are of elements of its
    composition, a flat vector of exactly [C(k+1,2) * nbins] values, one
    block of [nbins] values per element pair; a pair with an element
    absent from the structure's composition contributes a block of
    zeros. *)
Theorem C4_prdf_output_length (self : t) (s : Structure) (elems : list string) :
  is_ordered s = true ->
  elements_ self = Some elems ->
  elems <> [] ->
  (0 < bin_size self)%Q ->
  consistentb (cutoff self) s = true ->
  exists edges blocks,
    _make_bins self = Ok edges /\
    featurize self s = Ok (concat blocks) /\
    length (concat blocks) = (choose (length elems + 1) 2 * (length edges - 1))%nat /\
    Forall2 (fun key block =>
               length block = (length edges - 1)%nat /\
               (~ known (to_reduced_dict s) key ->
                block = replicate (length edges - 1) 0%Q))
            (itertools.combinations_with_replacement2 elems) blocks.
Proof.
  intros Hord Hfit Hne Hb Hcons.
  destruct (compute_prdf_spec self s Hb Hcons) as (edges & _ & Hbins & _).
  exists edges,
    (map (pair_block self s) (itertools.combinations_with_replacement2 elems)).
  split; [done|]. split; [by apply featurize_blocks|]. split.
  - rewrite (concat_length_uniform _ _ (length edges - 1)), cwr2_length; [done|].
    intros key. by apply pair_block_length.
  - apply Forall2_fmap_r, Forall_Forall2_diag, Forall_forall. intros key _.
    split; [by apply pair_block_length | by apply pair_block_absent].
Qed.


End PRDF_properties.

(** ** The ReDF *)

Section ReDF_properties.
Import ElectronicRadialDistributionFunction.

Lemma Qsum_app l1 l2 : (Qsum (l1 ++ l2) == Qsum l1 + Qsum l2)%Q.
Proof.
  induction l1 as [|x l1 IH]; simpl.
  - ring.
  - rewrite IH. ring.
Qed.

Lemma neighbor_terms_cons dr n q (nb : Site * Q) nbrs b :
  neighbor_terms dr n q (nb :: nbrs) b
  = (if decide (Qfloor (float.truediv nb.2 dr) = Z.of_nat b)
     then [(q * charge_of nb.1 / (Qofnat n * nb.2))%Q] else [])
    ++ neighbor_terms dr n q nbrs b.
Proof. unfold neighbor_terms. simpl. by case_decide. Qed.

Lemma chargedb_spec site :
  chargedb site = true ->
  exists sp, specie site = Ok sp /\ oxi_state sp = Ok (charge_of site).
Proof.
  unfold chargedb, charge_of. destruct (specie site) as [sp|]; [|done].
  rewrite bind_Ok. destruct (oxi_state sp) as [q|] eqn:Hq; [|done].
  intros _. by exists sp.
Qed.

Lemma py_int_nonneg x : (0 <= x)%Q -> py_int x = Qfloor x.
Proof. intros Hx. unfold py_int. apply Qle_bool_iff in Hx. by rewrite Hx. Qed.

Lemma Qdiv_nonneg x y : (0 <= x)%Q -> (0 < y)%Q -> (0 <= x / y)%Q.
Proof. intros Hx Hy. apply Qle_shift_div_l; [done | lra]. Qed.

Lemma Qfloor_nonneg x : (0 <= x)%Q -> (0 <= Qfloor x)%Z.
Proof. intros Hx. rewrite <- (Qfloor_Z 0). by apply Qfloor_resp_le. Qed.

(** The index at which [add_neighbor] adds: within range for a distance
    in (0, cutoff], since the float division is monotone. *)
Lemma bin_index_in_range dr c d (len : nat) :
  (0 < dr)%Q -> (0 < d)%Q -> (d <= c)%Q ->
  (Qfloor (float.truediv c dr) < Z.of_nat len)%Z ->
  np.index_of len (py_int (float.truediv d dr))
  = Ok (Z.to_nat (Qfloor (float.truediv d dr))) /\
  (0 <= Qfloor (float.truediv d dr))%Z.
Proof.
  intros Hdr Hd Hdc Hlen.
  assert (H0 : (0 <= float.truediv d dr)%Q) by (apply truediv_nonneg; lra).
  pose proof (Qfloor_nonneg _ H0) as Hfl.
  assert (Hle : (Qfloor (float.truediv d dr) <= Qfloor (float.truediv c dr))%Z).
  { apply Qfloor_resp_le, truediv_le; lra. }
  rewrite (py_int_nonneg _ H0). split; [|done]. unfold np.index_of.
  replace (0 <=? Qfloor (float.truediv d dr))%Z with true
    by (symmetry; apply Z.leb_le; lia).
  replace (Qfloor (float.truediv d dr) <? Z.of_nat len)%Z with true
    by (symmetry; apply Z.ltb_lt; lia).
  done.
Qed.

Lemma add_neighbors_spec dr c n q (nbrs : list (Site * Q)) (arr : list Q) :
  (0 < dr)%Q ->
  (Qfloor (float.truediv c dr) < Z.of_nat (length arr))%Z ->
  forallb (fun nb : Site * Q =>
             chargedb nb.1 && Qltb 0 nb.2 && Qle_bool nb.2 c) nbrs = true ->
  exists arr',
    foldM (add_neighbor dr n q) nbrs arr = Ok arr' /\
    length arr' = length arr /\
    forall b x, arr !! b = Some x ->
      exists x', arr' !! b = Some x' /\
                 (x' == x + Qsum (neighbor_terms dr n q nbrs b))%Q.
Proof.
  intros Hdr. revert arr. induction nbrs as [|[nnsite d] nbrs IH]; intros arr Hlen Hok.
  - exists arr. split; [done|]. split; [done|]. intros b x Hx. exists x.
    split; [done|]. simpl. ring.
  - simpl in Hok. apply andb_true_iff in Hok as [Hnb Hok].
    apply andb_true_iff in Hnb as [Hnb Hdc]. apply andb_true_iff in Hnb as [Hch Hd].
    Qbool. apply chargedb_spec in Hch as (sp & Hsp & Hq).
    destruct (bin_index_in_range dr c d (length arr) Hdr Hd Hdc Hlen) as [Hidx Hfl].
    set (v := (q * charge_of nnsite / (Qofnat n * d))%Q).
    set (k := Z.to_nat (Qfloor (float.truediv d dr))) in *.
    set (arr1 := alter (fun x => (x + v)%Q) k arr).
    assert (Hstep : add_neighbor dr n q arr (nnsite, d) = Ok arr1).
    { unfold add_neighbor. rewrite Hsp, bind_Ok, Hq, bind_Ok.
      unfold np.iadd. by rewrite Hidx, bind_Ok. }
    destruct (IH arr1) as (arr' & Hfold & Hlen' & Hlk); [|done|].
    { unfold arr1. by rewrite length_alter. }
    exists arr'. split; [cbn [foldM]; by rewrite Hstep, bind_Ok|].
    split; [rewrite Hlen'; apply length_alter|].
    intros b x Hx. rewrite neighbor_terms_cons. cbn [fst snd]. fold v.
    destruct (decide (Qfloor (float.truediv d dr) = Z.of_nat b)) as [Hb|Hb].
    + assert (k = b) as -> by (unfold k; lia).
      destruct (Hlk b (x + v)%Q) as (x' & Hx' & Heq).
      { unfold arr1. by rewrite list_lookup_alter_eq, Hx. }
      exists x'. split; [done|]. rewrite Heq. simpl. ring.
    + assert (k <> b) by (unfold k; lia).
      destruct (Hlk b x) as (x' & Hx' & Heq).
      { unfold arr1. by rewrite list_lookup_alter_ne. }
      exists x'. split; [done|]. rewrite Heq. simpl. ring.
Qed.

Lemma add_sites_spec dr c (struct : Structure) (ss : list Site) (arr : list Q) :
  (0 < dr)%Q ->
  (Qfloor (float.truediv c dr) < Z.of_nat (length arr))%Z ->
  forallb (fun site =>
             chargedb site &&
             forallb (fun nb : Site * Q =>
                        chargedb nb.1 && Qltb 0 nb.2 && Qle_bool nb.2 c)
                     (get_neighbors struct site c)) ss = true ->
  exists arr',
    foldM (add_site dr c struct) ss arr = Ok arr' /\
    length arr' = length arr /\
    forall b x, arr !! b = Some x ->
      exists x', arr' !! b = Some x' /\
                 (x' == x + Qsum (site ← ss;
                                  neighbor_terms dr (num_sites struct) (charge_of site)
                                                 (get_neighbors struct site c) b))%Q.
Proof.
  intros Hdr. revert arr. induction ss as [|site ss IH]; intros arr Hlen Hok.
  - exists arr. split; [done|]. split; [done|]. intros b x Hx. exists x.
    split; [done|]. simpl. ring.
  - simpl in Hok. apply andb_true_iff in Hok as [Hs Hok].
    apply andb_true_iff in Hs as [Hch Hnb].
    apply chargedb_spec in Hch as (sp & Hsp & Hq).
    destruct (add_neighbors_spec dr c (num_sites struct) (charge_of site)
                (get_neighbors struct site c) arr Hdr Hlen Hnb)
      as (arr1 & Hinner & Hlen1 & Hlk1).
    assert (Hstep : add_site dr c struct arr site = Ok arr1).
    { unfold add_site. by rewrite Hsp, bind_Ok, Hq, bind_Ok. }
    destruct (IH arr1) as (arr' & Hfold & Hlen' & Hlk); [by rewrite Hlen1|done|].
    exists arr'. split; [cbn [foldM]; by rewrite Hstep, bind_Ok|].
    split; [by rewrite Hlen', Hlen1|].
    intros b x Hx. destruct (Hlk1 b x Hx) as (x1 & Hx1 & Heq1).
    destruct (Hlk b x1 Hx1) as (x' & Hx' & Heq).
    exists x'. split; [done|].
    rewrite Heq, Heq1. cbn [mbind list_bind]. rewrite Qsum_app. ring.
Qed.

Context `{Pymatgen}.

(** C5.  With [dr > 0] and a cutoff [>= 0], on a structure whose
    preprocessing yields [struct] with a charge on every site and neighbor
    distances in (0, cutoff], the ReDF has [floor(cutoff/dr) + 1] bins
    with centers [(i + 0.5) * dr], and bin [b] holds the sum, over every
    site and every neighbor of it at a distance [d] with
    [floor(d/dr) = b], of [q_origin * q_neighbor / (num_sites * d)]:
    ordered pairs, no later normalisation.  The two quotients are the
    float ones that the code takes the integer part of; that integer part
    is the one of the exact quotient, or the next integer when the
    rounding of the quotient reaches it. *)
Theorem C5_redf_accumulation (self : t) (s struct : Structure) :
  let c := match cutoff self with
           | Some c => c
           | None => longest_diagonal struct
           end in
  let nbins := Z.to_nat (Qfloor (float.truediv c (dr self)) + 1) in
  (0 < dr self)%Q ->
  (0 <= c)%Q ->
  (find_primitive s ≫= fun prim => valence_structure (default s prim)) = Ok struct ->
  redf_inputs_ok c struct = true ->
  exists centers dist,
    featurize self s
    = (mk (Some c) (dr self),
       Ok [ {| distances := centers; distribution := dist |} ]) /\
    length centers = nbins /\
    length dist = nbins /\
    (forall i, (i < nbins)%nat ->
               centers !! i = Some ((Qofnat i + (1 # 2)) * dr self)%Q) /\
    (forall b, (b < nbins)%nat ->
               exists v, dist !! b = Some v /\ (v == redf_bin (dr self) c struct b)%Q) /\
    (forall d, (0 <= d)%Q -> (d / dr self < inject_Z (2 ^ 53))%Q ->
               (Qfloor (d / dr self) <= Qfloor (float.truediv d (dr self))
                <= Qfloor (d / dr self) + 1)%Z).
Proof.
  intros c nbins Hdr Hc Hpre Hok.
  assert (H0 : (0 <= float.truediv c (dr self))%Q) by (by apply truediv_nonneg).
  pose proof (Qfloor_nonneg _ H0) as Hfl.
  assert (Hzeros : np.zeros (py_int (float.truediv c (dr self)) + 1)%Z
                   = Ok (replicate nbins 0%Q)).
  { unfold np.zeros. rewrite (py_int_nonneg _ H0).
    replace (Qfloor (float.truediv c (dr self)) + 1 <? 0)%Z with false
      by (symmetry; apply Z.ltb_ge; lia).
    done. }
  destruct (add_sites_spec (dr self) c struct (sites struct) (replicate nbins 0%Q))
    as (dist & Hfold & Hlen & Hlk); [done| |done|].
  { rewrite length_replicate. unfold nbins. lia. }
  exists (map (fun i => ((Qofnat i + (1 # 2)) * dr self)%Q) (seq 0 nbins)), dist.
  split.
  { unfold featurize.
    destruct (Qle_bool (dr self) 0) eqn:E; [Qbool; lra|].
    rewrite Hpre. fold c. f_equal.
    unfold accumulate. rewrite Hzeros, bind_Ok, Hfold, bind_Ok.
    by rewrite (py_int_nonneg _ H0). }
  split; [by rewrite length_map, length_seq|].
  split; [by rewrite Hlen, length_replicate|].
  split.
  { intros i Hi. by rewrite list_lookup_fmap, lookup_seq_lt. }
  split.
  { intros b Hb.
    destruct (Hlk b 0%Q) as (v & Hv & Heq); [by apply lookup_replicate_2|].
    exists v. split; [done|]. rewrite Heq. unfold redf_bin. ring. }
  intros d Hd Hbig. by apply truediv_floor.
Qed.

End ReDF_properties.

(** ** Fitting the PRDF *)

Section Fit_properties.
Import PartialRadialDistributionFunction.
Context `{Pymatgen}.

Lemma mapM_Element (l : list string) :
  forallb valid_symbol l = true -> mapM Element_ l = Ok (map mkElement l).
Proof.
  induction l as [|e l IH]; intros Hv; [done|].
  simpl in Hv. apply andb_true_iff in Hv as [He Hv].
  assert (Element_ e = Ok (mkElement e)) as Hel by (unfold Element_; by rewrite He).
  cbn [mapM]. by rewrite Hel, bind_Ok, (IH Hv).
Qed.

Lemma elem_of_named (l : list string) (e : Element) :
  e ∈ (list_to_set (map mkElement l) : gset Element) <-> symbol e ∈ l.
Proof.
  rewrite elem_of_list_to_set, list_elem_of_fmap. split.
  - by intros (x & -> & Hx).
  - intros He. exists (symbol e). split; [by destruct e | done].
Qed.

(** What the comprehension of [fit] makes of a key is the element the
    key stands for. *)
Lemma base_element_spec (sp : Species) (e : Element) :
  base_element sp = e <-> element_of sp e.
Proof.
  split.
  - intros <-. destruct sp; constructor.
  - by intros [e'|e' q].
Qed.

Lemma elem_of_update_all (X : list Structure) (acc : gset Element) e :
  e ∈ foldl (fun (acc : gset Element) strc =>
               acc ∪ list_to_set (map base_element (composition_keys strc))) acc X
  <-> e ∈ acc \/ observed X e.
Proof.
  revert acc. induction X as [|strc X IH]; intros acc; cbn [foldl].
  - split; [by left|]. intros [?|(? & ? & ?%elem_of_nil & _)]; done.
  - rewrite IH, elem_of_union, elem_of_list_to_set, list_elem_of_fmap. split.
    + intros [[?|(sp & Hb & Hsp)]|(strc' & sp & ? & ? & ?)].
      * by left.
      * right. exists strc, sp. split; [by left|]. split; [done|].
        by apply base_element_spec.
      * right. exists strc', sp. split; [by right | done].
    + intros [?|(strc' & sp & Hin & Hsp & Hb)]; [by left; left|].
      apply elem_of_cons in Hin as [->|Hin].
      * left. right. exists sp. split; [|done]. symmetry. by apply base_element_spec.
      * right. by exists strc', sp.
Qed.

Lemma observed_perm X X' e : X' ≡ₚ X -> observed X' e -> observed X e.
Proof.
  intros HP (strc & sp & Hin & ?). exists strc, sp. split; [|done]. by rewrite <- HP.
Qed.

Section Order.
Hypothesis Hsto : strict_total_order.

Lemma element_ltb_asym x y : element_ltb x y = true -> element_ltb y x = false.
Proof.
  destruct Hsto as (Hirr & Htr & _). intros Hxy.
  destruct (element_ltb y x) eqn:Hyx; [|done].
  pose proof (Hirr x) as Hx. by rewrite (Htr x y x Hxy Hyx) in Hx.
Qed.

Local Instance element_le_total : Total element_le.
Proof.
  intros x y. unfold element_le.
  destruct (element_ltb y x) eqn:Hyx; [right; by apply element_ltb_asym | by left].
Qed.

Local Instance element_le_trans : Transitive element_le.
Proof.
  destruct Hsto as (Hirr & Htr & Htri).
  intros x y z. unfold element_le. intros Hyx Hzy.
  destruct (element_ltb z x) eqn:Hzx; [|done].
  destruct (element_ltb x y) eqn:Hxy.
  - by rewrite (Htr z x y Hzx Hxy) in Hzy.
  - pose proof (Htri x y Hxy Hyx) as ->. by rewrite Hzx in Hzy.
Qed.

Lemma strictly_sorted (l : list Element) :
  NoDup l -> StronglySorted element_le l ->
  StronglySorted (fun x y => element_ltb x y = true) l.
Proof.
  intros Hnd Hs. induction Hs as [|x l Hs IH Hx]; [constructor|].
  apply NoDup_cons in Hnd as [Hxl Hnd].
  constructor; [by apply IH|].
  rewrite Forall_forall in Hx |- *. intros y Hy.
  specialize (Hx y Hy). unfold element_le in Hx.
  destruct (element_ltb x y) eqn:Hxy; [done|].
  destruct Hsto as (_ & _ & Htri).
  pose proof (Htri x y Hxy Hx) as ->. done.
Qed.

Lemma sorted_spec (els : gset Element) :
  (forall e, e ∈ sorted els <-> e ∈ els) /\
  StronglySorted (fun x y => element_ltb x y = true) (sorted els) /\
  NoDup (sorted els).
Proof.
  unfold sorted.
  pose proof (merge_sort_Permutation element_le (elements els)) as HP.
  assert (Hnd : NoDup (merge_sort element_le (elements els))).
  { rewrite HP. apply NoDup_elements. }
  split; [intros e; by rewrite HP, elem_of_elements|]. split; [|done].
  apply strictly_sorted; [done|].
  apply (StronglySorted_merge_sort element_le).
Qed.

End Order.

(** C6.  When [Element.__lt__] is a strict total order and the include
    and exclude lists hold valid symbols, [fit] stores the symbols of the
    elements that are included explicitly or observed in a composition of
    some structure (a specie counting as its base element) and are not
    excluded; the stored list is strictly increasing in the order of the
    elements, hence without repetition, and is the same for every
    reordering of the structures. *)
Theorem C6_fit_vocabulary (self : t) (X : list Structure) :
  strict_total_order ->
  forallb valid_symbol (include_elems self) = true ->
  forallb valid_symbol (exclude_elems self) = true ->
  exists vocab : list Element,
    fit self X
    = Ok (mk (cutoff self) (bin_size self) (Some (map symbol vocab))
             (include_elems self) (exclude_elems self)) /\
    (forall e, e ∈ vocab <->
               (symbol e ∈ include_elems self \/ observed X e) /\
               symbol e ∉ exclude_elems self) /\
    StronglySorted (fun x y => element_ltb x y = true) vocab /\
    NoDup (map symbol vocab) /\
    (forall X', X' ≡ₚ X -> fit self X' = fit self X).
Proof.
  intros Hsto Hinc Hexc.
  assert (Hfit : forall Y,
    fit self Y
    = Ok (mk (cutoff self) (bin_size self)
             (Some (map symbol
                (sorted (foldl (fun (acc : gset Element) strc =>
                                  acc ∪ list_to_set (map base_element (composition_keys strc)))
                               (list_to_set (map mkElement (include_elems self))) Y
                         ∖ list_to_set (map mkElement (exclude_elems self))))))
             (include_elems self) (exclude_elems self))).
  { intros Y. unfold fit.
    by rewrite (mapM_Element _ Hinc), bind_Ok, (mapM_Element _ Hexc), bind_Ok. }
  eexists. split; [apply Hfit|].
  destruct (sorted_spec Hsto
              (foldl (fun (acc : gset Element) strc =>
                        acc ∪ list_to_set (map base_element (composition_keys strc)))
                     (list_to_set (map mkElement (include_elems self))) X
               ∖ list_to_set (map mkElement (exclude_elems self))))
    as (Hmem & Hsorted & Hnd).
  split.
  { intros e. by rewrite Hmem, elem_of_difference, elem_of_update_all, !elem_of_named. }
  split; [done|]. split.
  { assert (Inj eq eq symbol) by (intros [x] [y] Hxy; simpl in Hxy; by subst).
    by apply (NoDup_fmap_2 symbol). }
  intros X' HP. rewrite !Hfit. do 5 f_equal.
  apply set_eq. intros e. rewrite !elem_of_difference, !elem_of_update_all.
  assert (Hobs : observed X' e <-> observed X e).
  { split; apply observed_perm; [done | by symmetry]. }
  by rewrite Hobs.
Qed.

End Fit_properties.

(** ** The error conditions *)

Lemma rdf_disordered (self : RadialDistributionFunction.t) (s : Structure) :
  is_ordered s = false ->
  RadialDistributionFunction.featurize self s = Raise UnsupportedStructure.
Proof. intros Hs. unfold RadialDistributionFunction.featurize. by rewrite Hs. Qed.

Lemma prdf_disordered (self : PartialRadialDistributionFunction.t) (s : Structure) :
  is_ordered s = false ->
  PartialRadialDistributionFunction.featurize self s = Raise UnsupportedStructure.
Proof. intros Hs. unfold PartialRadialDistributionFunction.featurize. by rewrite Hs. Qed.

(** C7 at the failing input.  On the disordered sample structure the RDF
    and the PRDF raise UnsupportedStructure at once, while the ReDF, which
    has no such guard, runs its preprocessing and its site loop and ends
    in the [AttributeError] of [site.specie]. *)
Theorem C7_redf_lacks_order_guard :
  is_ordered Samples.disordered = false /\
  RadialDistributionFunction.featurize Samples.rdf Samples.disordered
  = Raise UnsupportedStructure /\
  PartialRadialDistributionFunction.featurize (Samples.prdf_fitted ["Fe"; "Ni"])
                                              Samples.disordered
  = Raise UnsupportedStructure /\
  (@ElectronicRadialDistributionFunction.featurize Samples.pymatgen
     Samples.redf Samples.disordered).2
  = Raise AttributeError.
Proof. repeat split. Qed.

(** C8, amended.  A PRDF without a vocabulary never returns a vector:
    [feature_labels] raises NotFitted, and [featurize] raises NotFitted on
    every ordered structure; on a disordered structure the order check
    comes first and it raises UnsupportedStructure. *)
Theorem C8_prdf_not_fitted (self : PartialRadialDistributionFunction.t) :
  PartialRadialDistributionFunction.elements_ self = None ->
  (forall s, is_ordered s = true ->
             PartialRadialDistributionFunction.featurize self s = Raise NotFitted) /\
  (forall s, is_ordered s = false ->
             PartialRadialDistributionFunction.featurize self s
             = Raise UnsupportedStructure) /\
  PartialRadialDistributionFunction.feature_labels self = Raise NotFitted /\
  (forall s, ~ returns (PartialRadialDistributionFunction.featurize self s)).
Proof.
  intros Hnone. split; [|split; [|split]].
  - intros s Hs. unfold PartialRadialDistributionFunction.featurize.
    by rewrite Hs, Hnone.
  - intros s. apply prdf_disordered.
  - unfold PartialRadialDistributionFunction.feature_labels. by rewrite Hnone.
  - intros s [v Hv]. unfold PartialRadialDistributionFunction.featurize in Hv.
    rewrite Hnone in Hv. by destruct (is_ordered s).
Qed.

Lemma C8_prdf_not_fitted_witness :
  PartialRadialDistributionFunction.elements_ Samples.prdf_unfitted = None /\
  PartialRadialDistributionFunction.featurize Samples.prdf_unfitted Samples.simple_cubic
  = Raise NotFitted /\
  PartialRadialDistributionFunction.feature_labels Samples.prdf_unfitted
  = Raise NotFitted.
Proof.
  split; [reflexivity|].
  destruct (C8_prdf_not_fitted Samples.prdf_unfitted eq_refl) as (Hord & _ & Hlab & _).
  split; [apply Hord; reflexivity | exact Hlab].
Defined.

(** C8 as worded fails: on a disordered structure an engine that was
    never fitted raises UnsupportedStructure, not NotFitted. *)
Lemma C8_counterexample :
  PartialRadialDistributionFunction.__init__ (5 # 4) (1 # 2) [] []
  = Ok Samples.prdf_unfitted /\
  PartialRadialDistributionFunction.featurize Samples.prdf_unfitted Samples.disordered
  = Raise UnsupportedStructure /\
  PartialRadialDistributionFunction.featurize Samples.prdf_unfitted Samples.disordered
  <> Raise NotFitted.
Proof. repeat split. discriminate. Qed.

Lemma rdf_never_invalid_configuration (self : RadialDistributionFunction.t)
    (s : Structure) :
  RadialDistributionFunction.featurize self s <> Raise InvalidConfiguration.
Proof.
  unfold RadialDistributionFunction.featurize.
  destruct (is_ordered s); cbn [negb]; [|discriminate].
  destruct (np.concatenate _) as [ds|e] eqn:Hcat; cycle 1.
  { unfold np.concatenate in Hcat.
    destruct (map _ _); simplify_eq. discriminate. }
  rewrite bind_Ok. unfold np.arange.
  destruct (Qeq_bool _ _); [discriminate|]. rewrite bind_Ok.
  unfold np.histogram. destruct (np.decreases _); discriminate.
Qed.

(** C9, amended.  InvalidConfiguration is raised at use, not at
    construction.  No constructor validates its arguments: building a
    ReDF with any [dr], or an RDF or a PRDF with any bin size, succeeds.
    For [dr <= 0] the ReDF's [featurize] raises InvalidConfiguration
    before any other work and leaves the engine unchanged; the RDF never
    raises it, whatever its bin size. *)
Theorem C9_redf_invalid_dr `{Pymatgen} (cutoff : option Q) (dr : Q) (s : Structure) :
  (dr <= 0)%Q ->
  (exists self,
      ElectronicRadialDistributionFunction.__init__ cutoff dr = Ok self /\
      ElectronicRadialDistributionFunction.featurize self s
      = (self, Raise InvalidConfiguration)) /\
  (forall c b,
      exists rdf,
        RadialDistributionFunction.__init__ c b = Ok rdf /\
        RadialDistributionFunction.featurize rdf s <> Raise InvalidConfiguration) /\
  (forall c b inc exc,
      returns (PartialRadialDistributionFunction.__init__ c b inc exc)).
Proof.
  intros Hdr. split; [|split].
  - eexists. split; [reflexivity|].
    unfold ElectronicRadialDistributionFunction.featurize. cbn.
    apply Qle_bool_iff in Hdr. by rewrite Hdr.
  - intros c b. eexists. split; [reflexivity|].
    apply rdf_never_invalid_configuration.
  - intros c b inc exc. by eexists.
Qed.

Lemma C9_redf_invalid_dr_witness :
  (0 <= 0)%Q /\
  exists self,
    ElectronicRadialDistributionFunction.__init__ None 0 = Ok self /\
    @ElectronicRadialDistributionFunction.featurize Samples.pymatgen self Samples.rock_salt
    = (self, Raise InvalidConfiguration).
Proof.
  split; [discriminate|].
  apply (@C9_redf_invalid_dr Samples.pymatgen None 0 Samples.rock_salt). discriminate.
Defined.

(** C9 as worded fails: constructing a ReDF with [dr = 0] returns the
    engine, and so does constructing an RDF or a PRDF with a bin size
    of 0; nothing is raised at construction. *)
Lemma C9_counterexample :
  ElectronicRadialDistributionFunction.__init__ None 0
  = Ok (ElectronicRadialDistributionFunction.mk None 0) /\
  ElectronicRadialDistributionFunction.__init__ None 0 <> Raise InvalidConfiguration /\
  RadialDistributionFunction.__init__ 20 0 = Ok (RadialDistributionFunction.mk 20 0) /\
  PartialRadialDistributionFunction.__init__ 20 0 [] []
  = Ok (PartialRadialDistributionFunction.mk 20 0 None [] []).
Proof. repeat split. discriminate. Qed.

(** ** The properties on the sample inputs *)

Lemma by_symbol_strict : @strict_total_order Samples.pymatgen.
Proof.
  unfold strict_total_order. cbn [element_ltb Samples.pymatgen].
  unfold Samples.by_symbol_ltb, String.ltb. split; [|split].
  - intros [x]. cbn [symbol].
    pose proof (proj2 (String_as_OT.cmp_eq x x) eq_refl) as Hxx.
    unfold String_as_OT.cmp in Hxx. by rewrite Hxx.
  - intros [x] [y] [z]. cbn [symbol].
    destruct (String.compare x y) eqn:Hxy; try discriminate.
    destruct (String.compare y z) eqn:Hyz; try discriminate.
    intros _ _. apply String_as_OT.cmp_lt in Hxy, Hyz.
    pose proof (String_as_OT.lt_trans _ _ _ Hxy Hyz) as Hxz.
    apply String_as_OT.cmp_lt in Hxz. unfold String_as_OT.cmp in Hxz.
    by rewrite Hxz.
  - intros [x] [y]. cbn [symbol]. rewrite (String.compare_antisym y x).
    destruct (String.compare x y) eqn:Hxy; try discriminate.
    intros _ _. f_equal. by apply String.compare_eq_iff.
Qed.

Lemma C3_rdf_normalization_witness :
  (is_ordered Samples.simple_cubic = true /\
   (0 < RadialDistributionFunction.bin_size Samples.rdf)%Q /\
   get_all_neighbors Samples.simple_cubic (RadialDistributionFunction.cutoff Samples.rdf)
   <> []) /\
  exists edges rdf,
    RadialDistributionFunction.featurize Samples.rdf Samples.simple_cubic
    = Ok [ {| distances := np.but_last edges; distribution := rdf |} ] /\
    length rdf = (length edges - 1)%nat.
Proof.
  assert (Hsites : get_all_neighbors Samples.simple_cubic
                     (RadialDistributionFunction.cutoff Samples.rdf) <> [])
    by discriminate.
  split; [repeat split; assumption|].
  destruct (C3_rdf_normalization Samples.rdf Samples.simple_cubic eq_refl eq_refl Hsites)
    as (edges & rdf & _ & Hfeat & Hlen & _).
  exists edges, rdf. split; [exact Hfeat | exact Hlen].
Defined.

Lemma C4_prdf_output_length_witness :
  (is_ordered Samples.rock_salt = true /\
   (0 < PartialRadialDistributionFunction.bin_size (Samples.prdf_fitted ["Cl"; "Na"]))%Q /\
   consistentb (5 # 4) Samples.rock_salt = true) /\
  exists v,
    PartialRadialDistributionFunction.featurize (Samples.prdf_fitted ["Cl"; "Na"])
                                                Samples.rock_salt = Ok v /\
    length v = 9%nat.
Proof.
  assert (Hcons : consistentb (5 # 4) Samples.rock_salt = true)
    by (vm_compute; reflexivity).
  split; [repeat split; assumption|].
  destruct (C4_prdf_output_length (Samples.prdf_fitted ["Cl"; "Na"]) Samples.rock_salt
              ["Cl"; "Na"] eq_refl eq_refl ltac:(discriminate) eq_refl Hcons)
    as (edges & blocks & Hbins & Hfeat & Hlen & _).
  exists (concat blocks). split; [exact Hfeat|].
  rewrite Hlen. vm_compute in Hbins. injection Hbins as <-. reflexivity.
Defined.

(** C4 as worded fails for an empty vocabulary: fitting on no structure
    stores the vocabulary [[]], and [featurize] then has no block to
    stack and raises instead of returning the empty vector. *)
Lemma C4_counterexample :
  @PartialRadialDistributionFunction.fit Samples.pymatgen Samples.prdf_unfitted []
  = Ok (Samples.prdf_fitted []) /\
  is_ordered Samples.simple_cubic = true /\
  PartialRadialDistributionFunction.featurize (Samples.prdf_fitted []) Samples.simple_cubic
  = Raise (ValueError "need at least one array to concatenate") /\
  ~ returns (PartialRadialDistributionFunction.featurize (Samples.prdf_fitted [])
                                                         Samples.simple_cubic).
Proof.
  split; [vm_compute; reflexivity|]. split; [reflexivity|].
  split; [vm_compute; reflexivity|].
  intros [v Hv]. vm_compute in Hv. discriminate.
Qed.

Lemma C5_redf_accumulation_witness :
  ((0 < MoreSamples.float_0_05)%Q /\
   (0 <= 1)%Q /\
   redf_inputs_ok 1 Samples.rock_salt = true) /\
  exists centers dist,
    @ElectronicRadialDistributionFunction.featurize Samples.pymatgen
      MoreSamples.redf_default_dr Samples.rock_salt
    = (MoreSamples.redf_default_dr,
       Ok [ {| distances := centers; distribution := dist |} ]) /\
    length dist = 21%nat /\
    (exists v, dist !! 20%nat = Some v /\
               (v == redf_bin MoreSamples.float_0_05 1 Samples.rock_salt 20)%Q) /\
    Qfloor (1 / MoreSamples.float_0_05) = 19%Z /\
    Qfloor (float.truediv 1 MoreSamples.float_0_05) = 20%Z.
Proof.
  assert (Hdr : (0 < MoreSamples.float_0_05)%Q) by (vm_compute; reflexivity).
  assert (Hok : redf_inputs_ok 1 Samples.rock_salt = true)
    by (vm_compute; reflexivity).
  assert (Hc : (0 <= 1)%Q) by discriminate.
  split; [repeat split; assumption|].
  destruct (@C5_redf_accumulation Samples.pymatgen MoreSamples.redf_default_dr
              Samples.rock_salt Samples.rock_salt Hdr Hc eq_refl Hok)
    as (centers & dist & Hfeat & _ & Hlen & _ & Hbin & _).
  exists centers, dist. split; [exact Hfeat|].
  split; [rewrite Hlen; vm_compute; reflexivity|].
  split; [|split; vm_compute; reflexivity].
  apply (Hbin 20%nat). vm_compute. lia.
Defined.

Lemma C6_fit_vocabulary_witness :
  (@strict_total_order Samples.pymatgen /\
   forallb (@valid_symbol Samples.pymatgen)
           (PartialRadialDistributionFunction.include_elems Samples.prdf_unfitted) = true /\
   forallb (@valid_symbol Samples.pymatgen)
           (PartialRadialDistributionFunction.exclude_elems Samples.prdf_unfitted) = true) /\
  exists vocab : list Element,
    @PartialRadialDistributionFunction.fit Samples.pymatgen Samples.prdf_unfitted
      [Samples.fe_o; Samples.fe_ni]
    = Ok (Samples.prdf_fitted (map symbol vocab)) /\
    Samples.O ∈ vocab /\
    (Samples.Cl ∉ vocab) /\
    @PartialRadialDistributionFunction.fit Samples.pymatgen Samples.prdf_unfitted
      [Samples.fe_ni; Samples.fe_o]
    = @PartialRadialDistributionFunction.fit Samples.pymatgen Samples.prdf_unfitted
        [Samples.fe_o; Samples.fe_ni].
Proof.
  split; [split; [exact by_symbol_strict | split; reflexivity]|].
  destruct (@C6_fit_vocabulary Samples.pymatgen Samples.prdf_unfitted
              [Samples.fe_o; Samples.fe_ni] by_symbol_strict eq_refl eq_refl)
    as (vocab & Hfit & Hmem & _ & _ & Hperm).
  exists vocab. split; [exact Hfit|].
  split; [|split; [|apply Hperm, perm_swap]].
  - apply Hmem. split; [|by intros ?%elem_of_nil].
    right. exists Samples.fe_o, (Specie Samples.O (-2)).
    split; [by left|]. split; [|constructor].
    right. by left.
  - intros Hin. apply Hmem in Hin as [[Hin|(strc & sp & Hstrc & Hsp & Hel)] _].
    + by apply elem_of_nil in Hin.
    + apply elem_of_cons in Hstrc as [->|Hstrc].
      * apply elem_of_cons in Hsp as [->|Hsp]; [by inversion Hel|].
        apply list_elem_of_singleton in Hsp as ->. by inversion Hel.
      * apply list_elem_of_singleton in Hstrc as ->.
        apply elem_of_cons in Hsp as [->|Hsp]; [by inversion Hel|].
        apply list_elem_of_singleton in Hsp as ->. by inversion Hel.
Defined.

(** The vocabulary of the specification's example, in either order of
    the two structures. *)
Example fit_fe_o_then_fe_ni :
  PartialRadialDistributionFunction.elements_
    <$> @PartialRadialDistributionFunction.fit Samples.pymatgen Samples.prdf_unfitted
          [Samples.fe_o; Samples.fe_ni]
  = Ok (Some ["Fe"; "Ni"; "O"]) /\
  PartialRadialDistributionFunction.elements_
    <$> @PartialRadialDistributionFunction.fit Samples.pymatgen Samples.prdf_unfitted
          [Samples.fe_ni; Samples.fe_o]
  = Ok (Some ["Fe"; "Ni"; "O"]).
Proof. split; vm_compute; reflexivity. Qed.

(** In rock salt the bucket of origin Na and neighbor Cl holds six
    distances, none of which reaches the vector fitted on [Cl; Na]: its
    only mixed block is the one of origin Cl and neighbor Na. *)
Example rock_salt_reverse_bucket :
  bucket (5 # 4) Samples.rock_salt ("Na", "Cl") = replicate 6 1%Q /\
  bucket (5 # 4) Samples.rock_salt ("Cl", "Na") = replicate 6 1%Q /\
  itertools.combinations_with_replacement2 ["Cl"; "Na"]
  = [("Cl", "Cl"); ("Cl", "Na"); ("Na", "Na")].
Proof. repeat split; vm_compute; reflexivity. Qed.


(** The edge counts that rounding produces at floats of everyday size.
    For 0.2 and 0.1, where the cutoff is twice the bin width, there are
    [floor(c/b) + 2] edges; for 0.9 and 0.3 there are [floor(c/b) + 1],
    and the last edge lies below the cutoff; for 8.1 and 0.3 there are
    [floor(c/b) + 3]. *)
Example make_bins_at_floats :
  let edges := fun c b =>
    PartialRadialDistributionFunction._make_bins
      (PartialRadialDistributionFunction.mk c b None [] []) in
  (length <$> edges MoreSamples.float_0_2 MoreSamples.float_0_1 = Ok 4%nat /\
   Qfloor (MoreSamples.float_0_2 / MoreSamples.float_0_1) = 2%Z) /\
  (length <$> edges MoreSamples.float_0_9 MoreSamples.float_0_3 = Ok 4%nat /\
   Qfloor (MoreSamples.float_0_9 / MoreSamples.float_0_3) = 3%Z /\
   (fun e => Qltb (last_edge e) MoreSamples.float_0_9)
     <$> edges MoreSamples.float_0_9 MoreSamples.float_0_3 = Ok true) /\
  (length <$> edges MoreSamples.float_8_1 MoreSamples.float_0_3 = Ok 29%nat /\
   Qfloor (MoreSamples.float_8_1 / MoreSamples.float_0_3) = 26%Z).
Proof. vm_compute. repeat split; reflexivity. Qed.

(** * Further properties *)

(** ** The RDF: its bins, its sign, its inputs *)

Lemma arange_bin_edges c b :
  (0 < b)%Q -> np.arange 0 (float.add c b) b = Ok (bin_edges c b).
Proof. apply arange_bins. Qed.

Lemma bin_edges_not_decreasing c b :
  (0 < b)%Q -> np.decreases (bin_edges c b) = false.
Proof. intros Hb. by apply ramp_not_decreasing. Qed.


Lemma bin_edges_lookup c b i :
  (i < length (bin_edges c b))%nat ->
  bin_edges c b !! i = Some (0 + Qofnat i * b)%Q.
Proof.
  unfold bin_edges. rewrite length_map, length_seq. intros Hi.
  by rewrite list_lookup_fmap, lookup_seq_lt.
Qed.


Lemma rdf_featurize_eq (self : RadialDistributionFunction.t) (s : Structure) :
  let c := RadialDistributionFunction.cutoff self in
  let b := RadialDistributionFunction.bin_size self in
  is_ordered s = true ->
  (0 < b)%Q ->
  get_all_neighbors s c <> [] ->
  RadialDistributionFunction.featurize self s
  = Ok [ {| distances := np.but_last (bin_edges c b);
            distribution :=
              normalize (bin_counts (all_distances c s) (bin_edges c b))
                        (shell_volumes (bin_edges c b))
                        (Qofnat (num_sites s) / volume s)%Q |} ].
Proof.
  intros c b Hord Hb Hsites.
  unfold RadialDistributionFunction.featurize. rewrite Hord. cbn [negb]. fold c b.
  assert (Hcat : np.concatenate (map (map snd) (get_all_neighbors s c))
                 = Ok (all_distances c s)).
  { unfold np.concatenate, all_distances.
    destruct (get_all_neighbors s c); [contradiction | reflexivity]. }
  rewrite Hcat, (arange_bin_edges c b Hb), !bind_Ok.
  by rewrite (histogram_counts _ _ (bin_edges_not_decreasing c b Hb)).
Qed.




Lemma bin_counts_nonneg a edges : Forall (fun h => (0 <= h)%Z) (bin_counts a edges).
Proof.
  induction edges as [|lo [|hi rest] IH]; try by constructor.
  change (bin_counts a (lo :: hi :: rest))
    with (Z.of_nat (count_if (in_bin (match rest with [] => true | _ => false end) lo hi) a)
          :: bin_counts a (hi :: rest)).
  constructor; [lia | exact IH].
Qed.

Lemma math_pi_pos : (0 < math_pi)%Q.
Proof. reflexivity. Qed.

Lemma cube_gap_pos lo hi : (0 <= lo)%Q -> (lo < hi)%Q -> (0 < hi ^ 3 - lo ^ 3)%Q.
Proof.
  intros Hlo Hlt. simpl.
  assert (0 < (hi - lo) * (hi * hi + hi * lo + lo * lo))%Q.
  { apply Qmult_lt_0_compat; [lra | nra]. }
  nra.
Qed.

Lemma Qofnat_nonneg i : (0 <= Qofnat i)%Q.
Proof. apply (Qofnat_le 0 i). lia. Qed.

(** Every value of a normalised histogram over the bin edges is
    non-negative when the density is positive. *)
Lemma normalize_nonneg a c b density :
  (0 < b)%Q -> (0 < density)%Q ->
  Forall (fun v => (0 <= v)%Q)
         (normalize (bin_counts a (bin_edges c b)) (shell_volumes (bin_edges c b)) density).
Proof.
  intros Hb Hd. apply Forall_lookup. intros i v Hv.
  assert (Hi : (i < length (bin_edges c b) - 1)%nat).
  { apply lookup_lt_Some in Hv. by rewrite normalize_length in Hv. }
  rewrite (normalize_lookup a (bin_edges c b) density i
             (0 + Qofnat i * b)%Q (0 + Qofnat (S i) * b)%Q) in Hv;
    [|apply bin_edges_lookup; lia..].
  injection Hv as <-.
  pose proof (Qofnat_nonneg i) as Hi0.
  assert (Hstep : (Qofnat (S i) == Qofnat i + 1)%Q).
  { unfold Qofnat. rewrite Nat2Z.inj_succ. unfold Z.succ. by rewrite inject_Z_plus. }
  assert (Hgap : (0 < (0 + Qofnat (S i) * b) ^ 3 - (0 + Qofnat i * b) ^ 3)%Q).
  { apply cube_gap_pos; [nra|]. rewrite Hstep. nra. }
  assert (Hshell : (0 < 4 / 3 * math_pi
                        * ((0 + Qofnat (S i) * b) ^ 3 - (0 + Qofnat i * b) ^ 3))%Q).
  { apply Qmult_lt_0_compat; [|exact Hgap].
    apply Qmult_lt_0_compat; [reflexivity | apply math_pi_pos]. }
  apply Qdiv_nonneg; [|exact Hd]. apply Qdiv_nonneg; [|exact Hshell].
  apply (Qofnat_nonneg (count_if _ a)).
Qed.

(** X2.  On an ordered structure with at least one site and a positive
    volume, every value of the RDF is non-negative. *)
Theorem X2_rdf_non_negative (self : RadialDistributionFunction.t) (s : Structure) :
  is_ordered s = true ->
  (0 < RadialDistributionFunction.bin_size self)%Q ->
  get_all_neighbors s (RadialDistributionFunction.cutoff self) <> [] ->
  sites s <> [] ->
  (0 < volume s)%Q ->
  exists d,
    RadialDistributionFunction.featurize self s = Ok [d] /\
    Forall (fun v => (0 <= v)%Q) (distribution d).
Proof.
  intros Hord Hb Hnb Hsites Hvol. eexists.
  split; [by apply rdf_featurize_eq|]. cbn [distribution].
  apply normalize_nonneg; [exact Hb|].
  apply Qlt_shift_div_l; [exact Hvol|]. rewrite Qmult_0_l.
  apply (Qofnat_lt 0). unfold num_sites. destruct (sites s); [done | simpl; lia].
Qed.

Lemma X2_rdf_non_negative_witness :
  (is_ordered Samples.simple_cubic = true /\
   (0 < RadialDistributionFunction.bin_size Samples.rdf)%Q /\
   sites Samples.simple_cubic <> [] /\
   (0 < volume Samples.simple_cubic)%Q) /\
  exists d,
    RadialDistributionFunction.featurize Samples.rdf Samples.simple_cubic = Ok [d] /\
    Forall (fun v => (0 <= v)%Q) (distribution d).
Proof.
  assert (Hnb : get_all_neighbors Samples.simple_cubic
                  (RadialDistributionFunction.cutoff Samples.rdf) <> [])
    by discriminate.
  assert (Hsites : sites Samples.simple_cubic <> []) by discriminate.
  split; [repeat split; assumption|].
  exact (X2_rdf_non_negative Samples.rdf Samples.simple_cubic
           eq_refl eq_refl Hnb Hsites eq_refl).
Defined.

Lemma count_if_perm p (a a' : list Q) : a ≡ₚ a' -> count_if p a = count_if p a'.
Proof.
  intros HP. induction HP as [|x l l' _ IH|x y l|l1 l2 l3 _ IH1 _ IH2].
  - done.
  - by rewrite !count_if_cons, IH.
  - rewrite !count_if_cons. lia.
  - by rewrite IH1.
Qed.

Lemma histogram_perm (a a' edges : list Q) :
  a ≡ₚ a' -> np.histogram a edges = np.histogram a' edges.
Proof.
  intros HP. unfold np.histogram, np.search_sorted_inclusive.
  destruct (np.decreases edges); [done|].
  rewrite (map_ext (np.searchsorted_left a) (np.searchsorted_left a')),
    (map_ext (np.searchsorted_right a) (np.searchsorted_right a')); [done|..];
    intros v; unfold np.searchsorted_left, np.searchsorted_right;
    by rewrite (count_if_perm _ a a' HP).
Qed.

(** X3.  The RDF depends on the neighbor search only through the
    multiset of distances: two ordered structures of equal site count and
    volume whose distances are a permutation of each other have the same
    RDF, whatever the order of sites and neighbors. *)
Theorem X3_rdf_order_independent
    (self : RadialDistributionFunction.t) (s s' : Structure) :
  let c := RadialDistributionFunction.cutoff self in
  is_ordered s = true -> is_ordered s' = true ->
  num_sites s = num_sites s' ->
  volume s = volume s' ->
  get_all_neighbors s c <> [] -> get_all_neighbors s' c <> [] ->
  all_distances c s ≡ₚ all_distances c s' ->
  RadialDistributionFunction.featurize self s
  = RadialDistributionFunction.featurize self s'.
Proof.
  intros c Hord Hord' Hn Hvol Hnb Hnb' HP.
  unfold RadialDistributionFunction.featurize. rewrite Hord, Hord'. cbn [negb].
  fold c.
  assert (Hcat : forall t, get_all_neighbors t c <> [] ->
                 np.concatenate (map (map snd) (get_all_neighbors t c))
                 = Ok (all_distances c t)).
  { intros t Ht. unfold np.concatenate, all_distances.
    destruct (get_all_neighbors t c); [contradiction | reflexivity]. }
  rewrite (Hcat s Hnb), (Hcat s' Hnb'), !bind_Ok.
  destruct (np.arange _ _ _) as [bins|e]; [|done].
  rewrite !bind_Ok, (histogram_perm _ _ bins HP), Hn, Hvol. done.
Qed.

Lemma X3_rdf_order_independent_witness :
  (num_sites MoreSamples.near_far = num_sites MoreSamples.far_near /\
   all_distances (5 # 4) MoreSamples.near_far
   ≡ₚ all_distances (5 # 4) MoreSamples.far_near) /\
  RadialDistributionFunction.featurize Samples.rdf MoreSamples.near_far
  = RadialDistributionFunction.featurize Samples.rdf MoreSamples.far_near.
Proof.
  assert (HP : all_distances (5 # 4) MoreSamples.near_far
               ≡ₚ all_distances (5 # 4) MoreSamples.far_near)
    by apply perm_swap.
  split; [split; [reflexivity | exact HP]|].
  assert (Hnb : get_all_neighbors MoreSamples.near_far (5 # 4) <> []) by discriminate.
  assert (Hnb' : get_all_neighbors MoreSamples.far_near (5 # 4) <> []) by discriminate.
  exact (X3_rdf_order_independent Samples.rdf MoreSamples.near_far MoreSamples.far_near
           eq_refl eq_refl eq_refl eq_refl Hnb Hnb' HP).
Defined.

Lemma bin_counts_nil edges :
  Forall (fun h => h = 0%Z) (bin_counts [] edges).
Proof.
  induction edges as [|lo [|hi rest] IH]; by constructor.
Qed.

(** X4.  The two empty inputs of the RDF.  A structure without sites
    gives [np.concatenate] nothing to join and the call raises
    [ValueError]; a structure with sites none of which has a neighbor
    within the cutoff gives a distribution with one value per bin, each
    of them zero. *)
Theorem X4_rdf_empty_inputs (self : RadialDistributionFunction.t) (s : Structure) :
  let c := RadialDistributionFunction.cutoff self in
  let b := RadialDistributionFunction.bin_size self in
  is_ordered s = true ->
  (0 < b)%Q ->
  (get_all_neighbors s c = [] ->
   RadialDistributionFunction.featurize self s
   = Raise (ValueError "need at least one array to concatenate")) /\
  (get_all_neighbors s c <> [] ->
   Forall (fun nlst => nlst = []) (get_all_neighbors s c) ->
   exists d edges,
     np.arange 0 (float.add c b) b = Ok edges /\
     RadialDistributionFunction.featurize self s = Ok [d] /\
     length (distribution d) = (length edges - 1)%nat /\
     Forall (fun v => (v == 0)%Q) (distribution d)).
Proof.
  intros c b Hord Hb. split.
  - intros Hnil. unfold RadialDistributionFunction.featurize.
    rewrite Hord. cbn [negb]. fold c. by rewrite Hnil.
  - intros Hne Hall. eexists _, (bin_edges c b).
    split; [by apply arange_bin_edges|].
    split; [by apply rdf_featurize_eq|].
    cbn [distribution]. split; [by rewrite normalize_length|].
    assert (Hnone : all_distances (RadialDistributionFunction.cutoff self) s = []).
    { unfold all_distances. fold c.
      induction Hall as [|nlst l -> _ IH]; [done|]. simpl.
      destruct l; [done|]. apply IH. discriminate. }
    rewrite Hnone. unfold normalize. apply Forall_lookup. intros i v Hv.
    apply lookup_zip_with_Some in Hv as (h & sv & -> & Hh & _).
    pose proof (bin_counts_nil (bin_edges (RadialDistributionFunction.cutoff self)
                                          (RadialDistributionFunction.bin_size self))) as Hz.
    rewrite Forall_lookup in Hz. rewrite (Hz i h Hh).
    unfold Qdiv. simpl. ring.
Qed.

Lemma X4_rdf_empty_inputs_witness :
  (is_ordered Samples.simple_cubic = true /\ (0 < 1 # 4)%Q) /\
  exists d edges,
    np.arange 0 (float.add (1 # 2) (1 # 4)) (1 # 4) = Ok edges /\
    RadialDistributionFunction.featurize (RadialDistributionFunction.mk (1 # 2) (1 # 4))
                                         Samples.simple_cubic = Ok [d] /\
    length (distribution d) = (length edges - 1)%nat /\
    Forall (fun v => (v == 0)%Q) (distribution d).
Proof.
  split; [split; reflexivity|].
  destruct (X4_rdf_empty_inputs (RadialDistributionFunction.mk (1 # 2) (1 # 4))
              Samples.simple_cubic eq_refl eq_refl) as [_ Hzero].
  apply Hzero; [discriminate|]. repeat constructor.
Defined.

(** ** The PRDF: labels, dictionary, missing elements *)

Section PRDF_further.
Import PartialRadialDistributionFunction.

Lemma bind_length_uniform {A B} (f : A -> list B) (l : list A) n :
  (forall y, length (f y) = n) -> length (l ≫= f) = (length l * n)%nat.
Proof.
  intros Hf. induction l as [|y l IH]; [done|].
  change ((y :: l) ≫= f) with (f y ++ (l ≫= f)).
  rewrite length_app, IH, Hf. cbn [length]. lia.
Qed.

Lemma bind_lookup_uniform {A B} (f : A -> list B) (l : list A) n p x b :
  (forall y, length (f y) = n) ->
  l !! p = Some x -> (b < n)%nat ->
  (l ≫= f) !! (p * n + b)%nat = f x !! b.
Proof.
  intros Hf. revert p. induction l as [|y l IH]; intros p Hp Hb; [done|].
  change ((y :: l) ≫= f) with (f y ++ (l ≫= f)). destruct p as [|p].
  - simplify_eq/=. apply lookup_app_l. by rewrite Hf.
  - rewrite lookup_app_r by (rewrite Hf; lia). rewrite Hf.
    replace (S p * n + b - n)%nat with (p * n + b)%nat by lia.
    by apply IH.
Qed.

Lemma bind_singleton_map {A B} (h : A -> B) (l : list A) :
  (l ≫= fun x => [h x]) = map h l.
Proof.
  induction l as [|x l IH]; [done|].
  change ((x :: l) ≫= fun x => [h x]) with ([h x] ++ (l ≫= fun x => [h x])).
  by rewrite IH.
Qed.


(** The labels of one element pair, bin after bin. *)
Lemma pair_labels (edges : list Q) (e1 e2 : string) :
  ('(r_start, r_end) ← zip edges (tail edges); [mk_label e1 e2 r_start r_end])
  = map (fun p : Q * Q => mk_label e1 e2 p.1 p.2) (zip edges (tail edges)).
Proof.
  rewrite <- bind_singleton_map. apply list_bind_ext; [|done]. by intros [??].
Qed.

Lemma zip_tail_length (edges : list Q) :
  length (zip edges (tail edges)) = (length edges - 1)%nat.
Proof. rewrite length_zip_with. destruct edges; cbn [tail length]; lia. Qed.

Lemma zip_tail_lookup (edges : list Q) b lo hi :
  edges !! b = Some lo -> edges !! S b = Some hi ->
  zip edges (tail edges) !! b = Some (lo, hi).
Proof. intros Hlo Hhi. apply lookup_zip_with_Some. exists lo, hi. by rewrite lookup_tail. Qed.

(** X6.  The labels of a fitted PRDF line up with its features: there
    are [C(k+1,2) * nbins] of them, the label at position [p * nbins + b]
    names the [p]-th element pair and the bin between edges [b] and
    [b + 1], and on every structure on which [featurize] returns it
    returns as many values as there are labels. *)
Theorem X6_prdf_labels_match_features (self : t) (elems : list string) :
  elements_ self = Some elems ->
  (0 < bin_size self)%Q ->
  exists edges labels,
    _make_bins self = Ok edges /\
    feature_labels self = Ok labels /\
    length labels = (choose (length elems + 1) 2 * (length edges - 1))%nat /\
    (forall p b e1 e2 lo hi,
        itertools.combinations_with_replacement2 elems !! p = Some (e1, e2) ->
        edges !! b = Some lo -> edges !! S b = Some hi ->
        labels !! (p * (length edges - 1) + b)%nat = Some (mk_label e1 e2 lo hi)) /\
    (forall s,
        elems <> [] -> is_ordered s = true -> consistentb (cutoff self) s = true ->
        exists v, featurize self s = Ok v /\ length v = length labels).
Proof.
  intros Hfit Hb.
  pose proof (arange_bin_edges (cutoff self) (bin_size self) Hb) as Hbins.
  set (edges := bin_edges (cutoff self) (bin_size self)) in *.
  set (block := fun key : string * string =>
                  map (fun p : Q * Q => mk_label key.1 key.2 p.1 p.2)
                      (zip edges (tail edges))).
  assert (Hlabels : feature_labels self
                    = Ok (itertools.combinations_with_replacement2 elems ≫= block)).
  { unfold feature_labels, _make_bins. rewrite Hfit, Hbins, bind_Ok. f_equal.
    apply list_bind_ext; [|done]. intros [e1 e2]. apply pair_labels. }
  assert (Hblock : forall key, length (block key) = (length edges - 1)%nat).
  { intros key. unfold block. by rewrite length_map, zip_tail_length. }
  exists edges, (itertools.combinations_with_replacement2 elems ≫= block).
  split; [exact Hbins|]. split; [exact Hlabels|].
  assert (Hlen : length (itertools.combinations_with_replacement2 elems ≫= block)
                 = (choose (length elems + 1) 2 * (length edges - 1))%nat).
  { by rewrite (bind_length_uniform _ _ _ Hblock), cwr2_length. }
  split; [exact Hlen|]. split.
  - intros p b e1 e2 lo hi Hp Hlo Hhi.
    rewrite (bind_lookup_uniform block _ _ p (e1, e2) b Hblock Hp).
    + unfold block. rewrite list_lookup_fmap, (zip_tail_lookup edges b lo hi Hlo Hhi). done.
    + apply lookup_lt_Some in Hhi. lia.
  - intros s Hne Hord Hcons. eexists.
    split; [by apply (featurize_blocks self s elems)|].
    rewrite Hlen, (concat_length_uniform _ _ (length edges - 1)), cwr2_length; [done|].
    intros key. by apply pair_block_length.
Qed.

Lemma X6_prdf_labels_match_features_witness :
  (0 < bin_size (Samples.prdf_fitted ["Cl"; "Na"]))%Q /\
  exists labels,
    feature_labels (Samples.prdf_fitted ["Cl"; "Na"]) = Ok labels /\
    length labels = 9%nat /\
    labels !! 5%nat = Some (mk_label "Cl" "Na" (0 + 2 * (1 # 2)) (0 + 3 * (1 # 2)))%Q.
Proof.
  split; [reflexivity|].
  destruct (X6_prdf_labels_match_features (Samples.prdf_fitted ["Cl"; "Na"])
              ["Cl"; "Na"] eq_refl eq_refl)
    as (edges & labels & Hbins & Hlabels & Hlen & Hpos & _).
  vm_compute in Hbins. injection Hbins as <-.
  exists labels. split; [exact Hlabels|]. split; [exact Hlen|].
  exact (Hpos 1%nat 2%nat "Cl" "Na" _ _ eq_refl eq_refl eq_refl).
Defined.



Lemma symbol_okb_spec site :
  symbol_okb site = true -> get_symbol site = Ok (symbol_of site).
Proof. unfold symbol_okb, symbol_of. by destruct (get_symbol site). Qed.

Lemma append_distance_domain (dbt : gmap (string * string) (list Q)) k l rij key :
  dbt !! k = Some l ->
  is_Some (<[k := l ++ [rij]]> dbt !! key) <-> is_Some (dbt !! key).
Proof.
  intros Hl. destruct (decide (k = key)) as [->|Hne].
  - rewrite lookup_insert_eq, Hl. split; by eexists.
  - by rewrite lookup_insert_ne.
Qed.

(** How the inner loop ends: with the buckets it started from, or with
    the [KeyError] of the first pair that has no bucket. *)
Lemma collect_neighbors_outcome (comp : gmap string Q) (my : string)
    (nlst : list (Site * Q)) (dbt : gmap (string * string) (list Q)) :
  (forall key, is_Some (dbt !! key) <-> known comp key) ->
  forallb (fun nb : Site * Q => symbol_okb nb.1) nlst = true ->
  match foldM (collect_neighbor my) nlst dbt with
  | Ok dbt' =>
      (forall key, is_Some (dbt' !! key) <-> known comp key) /\
      Forall (known comp) (map (fun nb : Site * Q => (my, symbol_of nb.1)) nlst)
  | Raise e =>
      e = KeyError /\
      Exists (fun key => ~ known comp key)
             (map (fun nb : Site * Q => (my, symbol_of nb.1)) nlst)
  end.
Proof.
  revert dbt. induction nlst as [|nb nlst IH]; intros dbt Hdom Hok.
  - split; [done | constructor].
  - simpl in Hok. apply andb_true_iff in Hok as [Hnb Hok].
    apply symbol_okb_spec in Hnb. cbn [map].
    change (foldM (collect_neighbor my) (nb :: nlst) dbt)
      with (collect_neighbor my dbt nb ≫= foldM (collect_neighbor my) nlst).
    assert (Hstep : collect_neighbor my dbt nb
                    = append_distance dbt (my, symbol_of nb.1) nb.2).
    { unfold collect_neighbor. by rewrite Hnb. }
    rewrite Hstep. unfold append_distance.
    destruct (dbt !! (my, symbol_of nb.1)) as [l|] eqn:Hl.
    + rewrite bind_Ok.
      assert (Hk : known comp (my, symbol_of nb.1)) by (apply Hdom; by eexists).
      specialize (IH (<[(my, symbol_of nb.1) := l ++ [nb.2]]> dbt)).
      destruct (foldM _ nlst _) as [dbt'|e].
      * destruct IH as [Hdom' Hall]; [|done|].
        { intros key. by rewrite append_distance_domain, Hdom. }
        split; [done | by constructor].
      * destruct IH as [-> Hex]; [|done|].
        { intros key. by rewrite append_distance_domain, Hdom. }
        split; [done | by apply Exists_cons_tl].
    + split; [done|]. apply Exists_cons_hd. intros Hk.
      apply Hdom in Hk. rewrite Hl in Hk. by destruct Hk.
Qed.

Lemma collect_sites_outcome (comp : gmap string Q)
    (pairs : list (Site * list (Site * Q)))
    (dbt : gmap (string * string) (list Q)) :
  (forall key, is_Some (dbt !! key) <-> known comp key) ->
  forallb (fun p : Site * list (Site * Q) =>
             symbol_okb p.1 && forallb (fun nb : Site * Q => symbol_okb nb.1) p.2)
          pairs = true ->
  match foldM collect_site pairs dbt with
  | Ok dbt' =>
      Forall (known comp)
             (p ← pairs; map (fun nb : Site * Q => (symbol_of p.1, symbol_of nb.1)) p.2)
  | Raise e =>
      e = KeyError /\
      Exists (fun key => ~ known comp key)
             (p ← pairs; map (fun nb : Site * Q => (symbol_of p.1, symbol_of nb.1)) p.2)
  end.
Proof.
  revert dbt. induction pairs as [|[site nlst] pairs IH]; intros dbt Hdom Hok.
  - constructor.
  - simpl in Hok. apply andb_true_iff in Hok as [Hs Hok].
    apply andb_true_iff in Hs as [Hsite Hnbrs]. apply symbol_okb_spec in Hsite.
    change (foldM collect_site ((site, nlst) :: pairs) dbt)
      with (collect_site dbt (site, nlst) ≫= foldM collect_site pairs).
    change (collect_site dbt (site, nlst))
      with (get_symbol site ≫= fun my_elem => foldM (collect_neighbor my_elem) nlst dbt).
    rewrite Hsite, bind_Ok.
    change (p ← (site, nlst) :: pairs;
            map (fun nb : Site * Q => (symbol_of p.1, symbol_of nb.1)) p.2)
      with (map (fun nb : Site * Q => (symbol_of site, symbol_of nb.1)) nlst
            ++ (p ← pairs; map (fun nb : Site * Q => (symbol_of p.1, symbol_of nb.1)) p.2)).
    pose proof (collect_neighbors_outcome comp (symbol_of site) nlst dbt Hdom Hnbrs) as Hin.
    destruct (foldM (collect_neighbor (symbol_of site)) nlst dbt) as [dbt1|e].
    + destruct Hin as [Hdom1 Hall1]. rewrite bind_Ok.
      specialize (IH dbt1 Hdom1 Hok).
      destruct (foldM collect_site pairs dbt1) as [dbt'|e].
      * by apply Forall_app.
      * destruct IH as [-> Hex]. split; [done|]. apply Exists_app. by right.
    + destruct Hin as [-> Hex]. split; [done|]. apply Exists_app. by left.
Qed.

(** X8.  A neighbor pair whose elements the reduced composition does not
    list has no bucket: when every site and neighbor resolves to a symbol
    but some (origin, neighbor) pair is not a pair of composition keys,
    [compute_prdf] raises [KeyError], and so does [featurize] on a fitted
    engine. *)
Theorem X8_prdf_unlisted_element_KeyError (self : t) (s : Structure) :
  symbols_okb (cutoff self) s = true ->
  Exists (fun key => ~ known (to_reduced_dict s) key) (neighbor_pairs (cutoff self) s) ->
  compute_prdf self s = Raise KeyError /\
  (forall elems,
      is_ordered s = true -> elements_ self = Some elems ->
      featurize self s = Raise KeyError).
Proof.
  intros Hok Hex.
  assert (Hprdf : compute_prdf self s = Raise KeyError).
  { unfold compute_prdf.
    pose proof (collect_sites_outcome (to_reduced_dict s)
                  (zip (sites s) (get_all_neighbors s (cutoff self)))
                  (empty_buckets (to_reduced_dict s))) as Hout.
    destruct (foldM collect_site _ _) as [dbt|e].
    - exfalso. apply (Exists_not_Forall (known (to_reduced_dict s)) _ Hex).
      apply Hout; [|exact Hok].
      intros key. rewrite empty_buckets_lookup. case_decide; [|by split; [intros []|]].
      split; [done | by eexists].
    - destruct Hout as [-> _]; [|exact Hok|done].
      intros key. rewrite empty_buckets_lookup. case_decide; [|by split; [intros []|]].
      split; [done | by eexists]. }
  split; [exact Hprdf|].
  intros elems Hord Hfit. unfold featurize. by rewrite Hord, Hfit, Hprdf.
Qed.

Lemma X8_prdf_unlisted_element_KeyError_witness :
  (symbols_okb (5 # 4) MoreSamples.stray_neighbor = true /\
   Exists (fun key => ~ known (to_reduced_dict MoreSamples.stray_neighbor) key)
          (neighbor_pairs (5 # 4) MoreSamples.stray_neighbor)) /\
  featurize (Samples.prdf_fitted ["Fe"]) MoreSamples.stray_neighbor = Raise KeyError.
Proof.
  assert (Hex : Exists (fun key => ~ known (to_reduced_dict MoreSamples.stray_neighbor) key)
                       (neighbor_pairs (5 # 4) MoreSamples.stray_neighbor)).
  { apply Exists_cons_hd. intros [_ [c Hc]]. vm_compute in Hc. discriminate. }
  split; [split; [reflexivity | exact Hex]|].
  destruct (X8_prdf_unlisted_element_KeyError (Samples.prdf_fitted ["Fe"])
              MoreSamples.stray_neighbor eq_refl Hex) as [_ Hfeat].
  exact (Hfeat ["Fe"] eq_refl eq_refl).
Defined.

End PRDF_further.

(** ** The PRDF: sign of the features, refitting, fitting then featurizing *)

Section PRDF_pipeline.
Import PartialRadialDistributionFunction.

(** X9.  On an ordered structure with at least one site whose reduced
    composition holds positive fractions, every feature of a fitted PRDF
    is non-negative. *)
Theorem X9_prdf_non_negative (self : t) (s : Structure) (elems : list string) :
  is_ordered s = true ->
  elements_ self = Some elems ->
  elems <> [] ->
  (0 < bin_size self)%Q ->
  consistentb (cutoff self) s = true ->
  sites s <> [] ->
  map_Forall (fun _ c => (0 < c)%Q) (to_reduced_dict s) ->
  exists v, featurize self s = Ok v /\ Forall (fun x => (0 <= x)%Q) v.
Proof.
  intros Hord Hfit Hne Hb Hcons Hsites Hfrac. eexists.
  split; [by apply (featurize_blocks self s elems)|].
  apply Forall_concat, Forall_fmap, Forall_forall. intros key _. simpl.
  unfold pair_block, _make_bins.
  rewrite (arange_bin_edges (cutoff self) (bin_size self) Hb).
  destruct (to_reduced_dict s !! key.1) as [c1|] eqn:Hc1;
    [|by apply Forall_replicate].
  destruct (to_reduced_dict s !! key.2) as [c2|]; [|by apply Forall_replicate].
  apply normalize_nonneg; [exact Hb|].
  apply Qmult_lt_0_compat; [exact (Hfrac _ _ Hc1)|].
  apply (Qofnat_lt 0). unfold num_sites. destruct (sites s); [done | simpl; lia].
Qed.

Lemma X9_prdf_non_negative_witness :
  (consistentb (5 # 4) Samples.rock_salt = true /\
   sites Samples.rock_salt <> [] /\
   map_Forall (fun _ c => (0 < c)%Q) (to_reduced_dict Samples.rock_salt)) /\
  exists v,
    featurize (Samples.prdf_fitted ["Cl"; "Na"]) Samples.rock_salt = Ok v /\
    Forall (fun x => (0 <= x)%Q) v.
Proof.
  assert (Hcons : consistentb (5 # 4) Samples.rock_salt = true)
    by (vm_compute; reflexivity).
  assert (Hsites : sites Samples.rock_salt <> []) by discriminate.
  assert (Hfrac : map_Forall (fun _ c => (0 < c)%Q) (to_reduced_dict Samples.rock_salt)).
  { intros k c Hk. cbn [to_reduced_dict Samples.rock_salt] in Hk.
    apply lookup_insert_Some in Hk as [[_ <-]|[_ Hk]]; [reflexivity|].
    apply lookup_singleton_Some in Hk as [_ <-]. reflexivity. }
  split; [repeat split; assumption|].
  exact (X9_prdf_non_negative (Samples.prdf_fitted ["Cl"; "Na"]) Samples.rock_salt
           ["Cl"; "Na"] eq_refl eq_refl ltac:(discriminate) eq_refl Hcons Hsites Hfrac).
Defined.

Context `{Pymatgen}.

Lemma fit_gathered (self : t) (X : list Structure) :
  forallb valid_symbol (include_elems self) = true ->
  forallb valid_symbol (exclude_elems self) = true ->
  fit self X
  = Ok (mk (cutoff self) (bin_size self)
           (Some (map symbol (sorted (gathered (include_elems self)
                                               (exclude_elems self) X))))
           (include_elems self) (exclude_elems self)).
Proof.
  intros Hinc Hexc. unfold fit.
  by rewrite (mapM_Element _ Hinc), bind_Ok, (mapM_Element _ Hexc), bind_Ok.
Qed.

(** X10.  [fit] replaces the vocabulary and nothing else: the engine it
    returns keeps the cutoff, the bin size and the include and exclude
    lists, and fitting it again gives what fitting the first engine would
    have given, so nothing of an earlier fit survives a later one. *)
Theorem X10_fit_refit (self self1 : t) (X Y : list Structure) :
  fit self X = Ok self1 ->
  cutoff self1 = cutoff self /\
  bin_size self1 = bin_size self /\
  include_elems self1 = include_elems self /\
  exclude_elems self1 = exclude_elems self /\
  fit self1 Y = fit self Y.
Proof.
  unfold fit at 1.
  destruct (mapM Element_ (include_elems self)) as [incl|e] eqn:Hincl; [|done].
  rewrite bind_Ok.
  destruct (mapM Element_ (exclude_elems self)) as [excl|e] eqn:Hexcl; [|done].
  rewrite bind_Ok. intros [= <-]. cbn [cutoff bin_size include_elems exclude_elems].
  repeat (split; [reflexivity|]).
  unfold fit. cbn [cutoff bin_size include_elems exclude_elems].
  by rewrite Hincl, Hexcl.
Qed.

(** X11.  Fitting and then featurizing works whenever the fit finds an
    element: if [Element.__lt__] is a strict total order, the include and
    exclude lists hold valid symbols and some included or observed element
    is not excluded, [fit] returns an engine whose [featurize] returns a
    vector on every ordered structure that is consistent with its
    composition. *)
Theorem X11_fit_then_featurize (self : t) (X : list Structure) (e : Element) :
  strict_total_order ->
  forallb valid_symbol (include_elems self) = true ->
  forallb valid_symbol (exclude_elems self) = true ->
  (0 < bin_size self)%Q ->
  (symbol e ∈ include_elems self \/ observed X e) ->
  symbol e ∉ exclude_elems self ->
  exists self',
    fit self X = Ok self' /\
    forall s,
      is_ordered s = true -> consistentb (cutoff self) s = true ->
      returns (featurize self' s).
Proof.
  intros Hsto Hinc Hexc Hb Hin Hout. eexists.
  split; [by apply fit_gathered|].
  intros s Hord Hcons.
  destruct (sorted_spec Hsto (gathered (include_elems self) (exclude_elems self) X))
    as (Hmem & _ & _).
  assert (He : e ∈ sorted (gathered (include_elems self) (exclude_elems self) X)).
  { apply Hmem. unfold gathered.
    by rewrite elem_of_difference, elem_of_update_all, !elem_of_named. }
  eexists.
  apply (featurize_blocks _ s
           (map symbol (sorted (gathered (include_elems self) (exclude_elems self) X))));
    try done.
  intros Hnil. apply fmap_nil_inv in Hnil. rewrite Hnil in He. by apply elem_of_nil in He.
Qed.

End PRDF_pipeline.

Lemma X10_fit_refit_witness :
  @PartialRadialDistributionFunction.fit Samples.pymatgen Samples.prdf_unfitted [Samples.fe_o]
  = Ok (Samples.prdf_fitted ["Fe"; "O"]) /\
  @PartialRadialDistributionFunction.fit Samples.pymatgen (Samples.prdf_fitted ["Fe"; "O"]) [Samples.fe_ni]
  = @PartialRadialDistributionFunction.fit Samples.pymatgen Samples.prdf_unfitted [Samples.fe_ni].
Proof.
  assert (Hfit : @PartialRadialDistributionFunction.fit Samples.pymatgen Samples.prdf_unfitted [Samples.fe_o]
                 = Ok (Samples.prdf_fitted ["Fe"; "O"]))
    by (vm_compute; reflexivity).
  split; [exact Hfit|].
  destruct (@X10_fit_refit Samples.pymatgen Samples.prdf_unfitted
              (Samples.prdf_fitted ["Fe"; "O"]) [Samples.fe_o] [Samples.fe_ni] Hfit)
    as (_ & _ & _ & _ & Hrefit).
  exact Hrefit.
Defined.

Lemma X11_fit_then_featurize_witness :
  (@strict_total_order Samples.pymatgen /\
   observed [Samples.fe_o] Samples.Fe) /\
  exists self',
    @PartialRadialDistributionFunction.fit Samples.pymatgen Samples.prdf_unfitted [Samples.fe_o] = Ok self' /\
    returns (PartialRadialDistributionFunction.featurize self' Samples.simple_cubic).
Proof.
  assert (Hobs : observed [Samples.fe_o] Samples.Fe).
  { exists Samples.fe_o, (Elem Samples.Fe). repeat split; by left. }
  split; [split; [exact by_symbol_strict | exact Hobs]|].
  destruct (@X11_fit_then_featurize Samples.pymatgen Samples.prdf_unfitted
              [Samples.fe_o] Samples.Fe by_symbol_strict eq_refl eq_refl eq_refl
              (or_intror Hobs) ltac:(by intros ?%elem_of_nil))
    as (self' & Hfit & Hfeat).
  exists self'. split; [exact Hfit|].
  apply Hfeat; [reflexivity | vm_compute; reflexivity].
Defined.

(** ** The ReDF: the derived cutoff and the total of the bins *)

Section ReDF_further.
Import ElectronicRadialDistributionFunction.

Lemma Qsum_alter (arr : list Q) (k : nat) (v : Q) :
  (k < length arr)%nat ->
  (Qsum (alter (fun x => (x + v)%Q) k arr) == Qsum arr + v)%Q.
Proof.
  revert k. induction arr as [|x arr IH]; intros k Hk; [simpl in Hk; lia|].
  destruct k as [|k].
  - change (x + v + Qsum arr == x + Qsum arr + v)%Q. ring.
  - change (x + Qsum (alter (fun x => (x + v)%Q) k arr) == x + Qsum arr + v)%Q.
    rewrite IH by (simpl in Hk; lia). ring.
Qed.

Lemma Qsum_replicate_0 (n : nat) : (Qsum (replicate n 0%Q) == 0)%Q.
Proof.
  induction n as [|n IH]; [reflexivity|].
  change (0 + Qsum (replicate n 0%Q) == 0)%Q. rewrite IH. ring.
Qed.

Lemma index_of_lt (len : nat) (i : Z) (k : nat) :
  np.index_of len i = Ok k -> (k < len)%nat.
Proof.
  unfold np.index_of.
  destruct ((0 <=? i)%Z && (i <? Z.of_nat len)%Z) eqn:E1.
  - apply andb_true_iff in E1 as [?%Z.leb_le ?%Z.ltb_lt]. intros [= <-]. lia.
  - destruct ((- Z.of_nat len <=? i)%Z && (i <? 0)%Z) eqn:E2; [|done].
    apply andb_true_iff in E2 as [?%Z.leb_le ?%Z.ltb_lt]. intros [= <-]. lia.
Qed.

Lemma add_neighbors_total dr c n q (nbrs : list (Site * Q)) (arr : list Q) :
  (0 < dr)%Q ->
  (Qfloor (float.truediv c dr) < Z.of_nat (length arr))%Z ->
  forallb (fun nb : Site * Q =>
             chargedb nb.1 && Qltb 0 nb.2 && Qle_bool nb.2 c) nbrs = true ->
  exists arr',
    foldM (add_neighbor dr n q) nbrs arr = Ok arr' /\
    length arr' = length arr /\
    (Qsum arr' == Qsum arr
                  + Qsum (map (fun nb : Site * Q =>
                                 (q * charge_of nb.1 / (Qofnat n * nb.2))%Q) nbrs))%Q.
Proof.
  intros Hdr. revert arr. induction nbrs as [|[nnsite d] nbrs IH]; intros arr Hlen Hok.
  - exists arr. split; [done|]. split; [done|]. simpl. ring.
  - simpl in Hok. apply andb_true_iff in Hok as [Hnb Hok].
    apply andb_true_iff in Hnb as [Hnb Hdc]. apply andb_true_iff in Hnb as [Hch Hd].
    Qbool. apply chargedb_spec in Hch as (sp & Hsp & Hq).
    destruct (bin_index_in_range dr c d (length arr) Hdr Hd Hdc Hlen) as [Hidx _].
    pose proof (index_of_lt _ _ _ Hidx) as Hk.
    set (v := (q * charge_of nnsite / (Qofnat n * d))%Q).
    set (k := Z.to_nat (Qfloor (float.truediv d dr))) in *.
    set (arr1 := alter (fun x => (x + v)%Q) k arr).
    assert (Hstep : add_neighbor dr n q arr (nnsite, d) = Ok arr1).
    { unfold add_neighbor. rewrite Hsp, bind_Ok, Hq, bind_Ok.
      unfold np.iadd. by rewrite Hidx, bind_Ok. }
    destruct (IH arr1) as (arr' & Hfold & Hlen' & Hsum); [|done|].
    { unfold arr1. by rewrite length_alter. }
    exists arr'. split; [cbn [foldM]; by rewrite Hstep, bind_Ok|].
    split; [rewrite Hlen'; apply length_alter|].
    rewrite Hsum. unfold arr1. rewrite (Qsum_alter arr k v Hk).
    cbn [map fst snd]. fold v.
    change (Qsum (v :: ?l)) with (v + Qsum l)%Q.
    ring.
Qed.

Lemma add_sites_total dr c (struct : Structure) (ss : list Site) (arr : list Q) :
  (0 < dr)%Q ->
  (Qfloor (float.truediv c dr) < Z.of_nat (length arr))%Z ->
  forallb (fun site =>
             chargedb site &&
             forallb (fun nb : Site * Q =>
                        chargedb nb.1 && Qltb 0 nb.2 && Qle_bool nb.2 c)
                     (get_neighbors struct site c)) ss = true ->
  exists arr',
    foldM (add_site dr c struct) ss arr = Ok arr' /\
    length arr' = length arr /\
    (Qsum arr' == Qsum arr
                  + Qsum (site ← ss;
                          map (fun nb : Site * Q =>
                                 (charge_of site * charge_of nb.1
                                  / (Qofnat (num_sites struct) * nb.2))%Q)
                              (get_neighbors struct site c)))%Q.
Proof.
  intros Hdr. revert arr. induction ss as [|site ss IH]; intros arr Hlen Hok.
  - exists arr. split; [done|]. split; [done|]. simpl. ring.
  - simpl in Hok. apply andb_true_iff in Hok as [Hs Hok].
    apply andb_true_iff in Hs as [Hch Hnb].
    apply chargedb_spec in Hch as (sp & Hsp & Hq).
    destruct (add_neighbors_total dr c (num_sites struct) (charge_of site)
                (get_neighbors struct site c) arr Hdr Hlen Hnb)
      as (arr1 & Hinner & Hlen1 & Hsum1).
    assert (Hstep : add_site dr c struct arr site = Ok arr1).
    { unfold add_site. by rewrite Hsp, bind_Ok, Hq, bind_Ok. }
    destruct (IH arr1) as (arr' & Hfold & Hlen' & Hsum); [by rewrite Hlen1|done|].
    exists arr'. split; [cbn [foldM]; by rewrite Hstep, bind_Ok|].
    split; [by rewrite Hlen', Hlen1|].
    rewrite Hsum, Hsum1. cbn [mbind list_bind]. rewrite Qsum_app. ring.
Qed.

Context `{Pymatgen}.

(** X12.  An engine built without a cutoff derives it once: with
    [dr > 0], the first [featurize] whose preprocessing returns stores the
    longest diagonal of that structure's cell in the engine, whether or
    not the accumulation then succeeds, and every later call, on whatever
    structure, uses that stored cutoff and leaves the engine as it is. *)
Theorem X12_redf_cutoff_kept (self : t) (s1 struct1 s2 struct2 : Structure) :
  cutoff self = None ->
  (0 < dr self)%Q ->
  (find_primitive s1 ≫= fun prim => valence_structure (default s1 prim)) = Ok struct1 ->
  (find_primitive s2 ≫= fun prim => valence_structure (default s2 prim)) = Ok struct2 ->
  let self1 := (featurize self s1).1 in
  self1 = mk (Some (longest_diagonal struct1)) (dr self) /\
  featurize self1 s2
  = (self1, accumulate (dr self) (longest_diagonal struct1) struct2).
Proof.
  intros Hcut Hdr Hpre1 Hpre2.
  assert (Hguard : Qle_bool (dr self) 0 = false).
  { destruct (Qle_bool (dr self) 0) eqn:E; [Qbool; lra | done]. }
  assert (Hfirst : (featurize self s1).1 = mk (Some (longest_diagonal struct1)) (dr self)).
  { unfold featurize. by rewrite Hguard, Hpre1, Hcut. }
  cbv zeta. rewrite Hfirst. split; [done|].
  unfold featurize. cbn [dr cutoff]. by rewrite Hguard, Hpre2.
Qed.

(** X13.  Under the conditions of the accumulation (a charge on every
    site, neighbor distances in (0, cutoff], [dr > 0]) the bins of the
    ReDF add up to the sum of the terms
    [q_origin * q_neighbor / (num_sites * d)] over every site and every
    neighbor of it: each term is counted in exactly one bin. *)
Theorem X13_redf_total (self : t) (s struct : Structure) :
  let c := match cutoff self with
           | Some c => c
           | None => longest_diagonal struct
           end in
  (0 < dr self)%Q ->
  (0 <= c)%Q ->
  (find_primitive s ≫= fun prim => valence_structure (default s prim)) = Ok struct ->
  redf_inputs_ok c struct = true ->
  exists centers dist,
    (featurize self s).2 = Ok [ {| distances := centers; distribution := dist |} ] /\
    (Qsum dist == Qsum (redf_terms c struct))%Q.
Proof.
  intros c Hdr Hc Hpre Hok.
  assert (H0 : (0 <= float.truediv c (dr self))%Q) by (by apply truediv_nonneg).
  pose proof (Qfloor_nonneg _ H0) as Hfl.
  set (nbins := Z.to_nat (Qfloor (float.truediv c (dr self)) + 1)).
  assert (Hzeros : np.zeros (py_int (float.truediv c (dr self)) + 1)%Z
                   = Ok (replicate nbins 0%Q)).
  { unfold np.zeros. rewrite (py_int_nonneg _ H0).
    replace (Qfloor (float.truediv c (dr self)) + 1 <? 0)%Z with false
      by (symmetry; apply Z.ltb_ge; lia).
    done. }
  destruct (add_sites_total (dr self) c struct (sites struct) (replicate nbins 0%Q))
    as (dist & Hfold & _ & Hsum); [done| |done|].
  { rewrite length_replicate. unfold nbins. lia. }
  eexists _, dist. split.
  { unfold featurize.
    destruct (Qle_bool (dr self) 0) eqn:E; [Qbool; lra|].
    rewrite Hpre. fold c. cbn [snd].
    unfold accumulate. by rewrite Hzeros, bind_Ok, Hfold, bind_Ok. }
  rewrite Hsum, Qsum_replicate_0. unfold redf_terms. ring.
Qed.

End ReDF_further.

Lemma X12_redf_cutoff_kept_witness :
  let self1 := (@ElectronicRadialDistributionFunction.featurize Samples.pymatgen
                  MoreSamples.redf_auto MoreSamples.slab).1 in
  self1 = ElectronicRadialDistributionFunction.mk (Some 3%Q) (1 # 2) /\
  @ElectronicRadialDistributionFunction.featurize Samples.pymatgen self1 Samples.rock_salt
  = (self1, ElectronicRadialDistributionFunction.accumulate (1 # 2) 3 Samples.rock_salt).
Proof.
  exact (@X12_redf_cutoff_kept Samples.pymatgen MoreSamples.redf_auto
           MoreSamples.slab MoreSamples.slab Samples.rock_salt Samples.rock_salt
           eq_refl eq_refl eq_refl eq_refl).
Defined.

Lemma X13_redf_total_witness :
  redf_inputs_ok (5 # 4) Samples.rock_salt = true /\
  exists centers dist,
    (@ElectronicRadialDistributionFunction.featurize Samples.pymatgen
       Samples.redf Samples.rock_salt).2
    = Ok [ {| distances := centers; distribution := dist |} ] /\
    (Qsum dist == Qsum (redf_terms (5 # 4) Samples.rock_salt))%Q.
Proof.
  assert (Hok : redf_inputs_ok (5 # 4) Samples.rock_salt = true)
    by (vm_compute; reflexivity).
  split; [exact Hok|].
  exact (@X13_redf_total Samples.pymatgen Samples.redf Samples.rock_salt
           Samples.rock_salt eq_refl ltac:(vm_compute; discriminate) eq_refl Hok).
Defined.

(** ** The powder pattern: its length, its labels and its range *)

Section XRD_properties.
Import XRDPowderPattern.
Context `{Collaborators}.

Lemma bind_Return {A B} (a : A) (f : A -> outcome B) : (Return a ≫= f) = f a.
Proof. reflexivity. Qed.

Lemma falsy_default (n : option pynum) (d : outcome pynum) :
  (forall m, n = Some m -> truthy m = false) ->
  match n with
  | Some m => if truthy m then Return m else d
  | None => d
  end = d.
Proof. intros Hn. destruct n as [m|]; [by rewrite (Hn m eq_refl) | done]. Qed.

Lemma xrd_label_inj : Inj (=) (=) xrd_label.
Proof. intros i j Hij. unfold xrd_label in Hij. by simplify_eq. Qed.

Lemma add_peaks_spec (hist : list Q) (peaks : list (Q * Q)) :
  foldl add_peak hist peaks
  = hist ++ (p ← peaks; replicate (Z.to_nat (py_int p.2)) p.1).
Proof.
  revert hist. induction peaks as [|[x1 y1] peaks IH]; intros hist.
  - by rewrite app_nil_r.
  - cbn [foldl]. rewrite IH. unfold add_peak at 1.
    change ((x1, y1) :: peaks ≫= _)
      with (replicate (Z.to_nat (py_int y1)) x1
              ++ (p ← peaks; replicate (Z.to_nat (py_int p.2)) p.1)).
    by rewrite <- app_assoc.
Qed.

Lemma py_int_pos (y : Q) : (0 < py_int y)%Z <-> (1 <= y)%Q.
Proof.
  unfold py_int. destruct (Qle_bool 0 y) eqn:E.
  - split.
    + intros Hfl. pose proof (Qfloor_le y) as Hle.
      assert (inject_Z 1 <= inject_Z (Qfloor y))%Q by (rewrite <- Zle_Qle; lia).
      change (inject_Z 1) with 1%Q in *. lra.
    + intros Hy. apply Qfloor_resp_le in Hy. change (Qfloor 1) with 1%Z in Hy. lia.
  - assert (Hneg : (y < 0)%Q).
    { apply Qnot_le_lt. intros Hle. apply Qle_bool_iff in Hle. congruence. }
    split; [|lra].
    intros Hce. pose proof (Qceiling_lt y) as Hlt.
    assert (inject_Z 0 <= inject_Z (Qceiling y - 1))%Q by (rewrite <- Zle_Qle; lia).
    change (inject_Z 0) with 0%Q in *. lra.
Qed.

(** X14.  When no pattern length is asked for ([None], or a zero, which
    [or] treats alike), the constructor cannot be used without a two-theta
    range: it raises a TypeError from indexing [None].  With integer
    bounds [l] and [h] it sets the length to [h - l + 1], one value per
    degree with both bounds counted, and the labels are then
    [xrd_0 .. xrd_(h-l)]. *)
Theorem X14_xrd_default_length (bw : Q) (n : option pynum) (kw : kwargs)
    (calc : calculator) (l h : Z) :
  (forall m, n = Some m -> truthy m = false) ->
  XRDCalculator kw = Return calc ->
  __init__ None bw n kw = Throw TypeError /\
  exists self,
    __init__ (Some (PyInt l, PyInt h)) bw n kw = Return self /\
    two_theta_range self = Some (PyInt l, PyInt h) /\
    pattern_length self = PyInt (h - l + 1) /\
    feature_labels self = Return (map xrd_label (seq 0 (Z.to_nat (h - l + 1)))).
Proof.
  intros Hn Hcalc. split.
  - unfold __init__. by rewrite (falsy_default n _ Hn).
  - eexists. split.
    + unfold __init__. rewrite (falsy_default n _ Hn). cbn [bound].
      rewrite !bind_Return, Hcalc, bind_Return. reflexivity.
    + done.
Qed.

(** X15.  With a float among the two bounds and no pattern length asked
    for, the constructor returns an engine whose length is a float, and
    [feature_labels] of that engine raises a TypeError, since [range]
    takes no float. *)
Theorem X15_xrd_float_bounds_no_labels (bw : Q) (n : option pynum) (kw : kwargs)
    (calc : calculator) (lo hi : pynum) :
  (forall m, n = Some m -> truthy m = false) ->
  XRDCalculator kw = Return calc ->
  (forall z, lo <> PyInt z) \/ (forall z, hi <> PyInt z) ->
  exists self,
    __init__ (Some (lo, hi)) bw n kw = Return self /\
    pattern_length self = PyFloat (to_float hi - to_float lo + 1) /\
    feature_labels self = Throw TypeError.
Proof.
  intros Hn Hcalc Hfloat.
  assert (Hlen : py_add (py_sub hi lo) (PyInt 1)
                 = PyFloat (to_float hi - to_float lo + 1)).
  { destruct hi as [zh|qh], lo as [zl|ql]; try reflexivity.
    destruct Hfloat as [Hf|Hf]; [by destruct (Hf zl) | by destruct (Hf zh)]. }
  eexists. split.
  - unfold __init__. rewrite (falsy_default n _ Hn). cbn [bound].
    rewrite !bind_Return, Hcalc, bind_Return. reflexivity.
  - cbn [pattern_length]. split; [exact Hlen|].
    unfold feature_labels. cbn [pattern_length]. by rewrite Hlen.
Qed.

(** X16.  An engine whose two-theta range is [None] never returns a
    pattern: if the calculator and the kernel estimate return, indexing
    the range raises a TypeError, and otherwise their own exception
    leaves [featurize]. *)
Theorem X16_xrd_without_range (self : t) (strc : Structure) :
  two_theta_range self = None ->
  ~ returns (featurize self strc) /\
  forall x y kernel,
    get_pattern (xrd_calc self) strc None = Return (x, y) ->
    gaussian_kde (foldl add_peak [] (zip x y)) (bw_method self) = Return kernel ->
    featurize self strc = Throw TypeError.
Proof.
  intros Hnone. unfold featurize. rewrite Hnone. split.
  - intros [v Hv].
    destruct (get_pattern (xrd_calc self) strc None) as [[x y]|e]; [|done].
    rewrite bind_Return in Hv.
    by destruct (gaussian_kde (foldl add_peak [] (zip x y)) (bw_method self)).
  - intros x y kernel Hpat Hkde. by rewrite Hpat, bind_Return, Hkde.
Qed.

(** X17.  With an integer pattern length [n >= 0] and a two-theta range,
    whenever the calculator and the kernel estimate return, [featurize]
    returns exactly [n] values, the density at [n] evenly spaced angles
    starting at the lower bound, and [feature_labels] returns exactly [n]
    labels, all different: one label per value. *)
Theorem X17_xrd_values_and_labels (self : t) (strc : Structure) (n : Z)
    (lo hi : pynum) (x y : list Q) (kernel : Q -> Q) :
  pattern_length self = PyInt n ->
  (0 <= n)%Z ->
  two_theta_range self = Some (lo, hi) ->
  get_pattern (xrd_calc self) strc (Some (lo, hi)) = Return (x, y) ->
  gaussian_kde (foldl add_peak [] (zip x y)) (bw_method self) = Return kernel ->
  exists v labels,
    featurize self strc = Return v /\
    feature_labels self = Return labels /\
    length v = Z.to_nat n /\
    length labels = Z.to_nat n /\
    NoDup labels /\
    forall i, (i < Z.to_nat n)%nat ->
      v !! i = Some (kernel (to_float lo
                             + Qofnat i * ((to_float hi - to_float lo)
                                           / inject_Z (n - 1)))%Q) /\
      labels !! i = Some (xrd_label i).
Proof.
  intros Hlen Hn Hrange Hpat Hkde.
  assert (Hneg : (n <? 0)%Z = false) by (apply Z.ltb_ge; lia).
  eexists _, _. split; [|split].
  - unfold featurize. rewrite Hrange, Hpat, bind_Return, Hkde, bind_Return.
    cbn [bound]. rewrite !bind_Return. unfold linspace.
    rewrite Hlen, Hneg, bind_Return. reflexivity.
  - unfold feature_labels. rewrite Hlen. reflexivity.
  - rewrite !length_map, !length_seq.
    split; [done|]. split; [done|].
    split; [apply (@NoDup_fmap_2 _ _ xrd_label xrd_label_inj), NoDup_seq|].
    intros i Hi. by rewrite !list_lookup_fmap, lookup_seq_lt.
Qed.

(** X18.  The sample that the kernel estimate is fitted on holds each
    angle as often as the integer part of its intensity: an angle is in
    it exactly when one of its peaks has an intensity of at least 1, and
    its size is the sum of the truncated positive intensities. *)
Theorem X18_xrd_kde_sample (x y : list Q) :
  let hist := foldl add_peak [] (zip x y) in
  (forall a, a ∈ hist <->
             exists i yi, x !! i = Some a /\ y !! i = Some yi /\ (1 <= yi)%Q) /\
  length hist = sum_list (map (fun p : Q * Q => Z.to_nat (py_int p.2)) (zip x y)).
Proof.
  cbv zeta. rewrite add_peaks_spec, app_nil_l. split.
  - intros a. rewrite list_elem_of_bind. split.
    + intros ([x1 y1] & Hin & Hp). cbn [fst snd] in Hin.
      apply elem_of_replicate in Hin as [-> Hnum].
      apply list_elem_of_lookup in Hp as [i Hi].
      apply lookup_zip_with_Some in Hi as (a' & yi & [= <- <-] & Hx & Hy).
      exists i, y1. repeat split; [done..|]. apply py_int_pos. lia.
    + intros (i & yi & Hx & Hy & Hyi). exists (a, yi). split.
      * cbn [fst snd]. apply elem_of_replicate. split; [done|].
        apply py_int_pos in Hyi. lia.
      * apply (list_elem_of_lookup_2 _ i).
        apply lookup_zip_with_Some. by exists a, yi.
  - induction (zip x y) as [|[x1 y1] peaks IH]; [done|].
    rewrite bind_cons, length_app, length_replicate, IH. reflexivity.
Qed.

End XRD_properties.

Lemma X14_xrd_default_length_witness :
  @XRDPowderPattern.__init__ MoreSamples.xrd None (1 # 20) None tt
  = XRDPowderPattern.Throw XRDPowderPattern.TypeError /\
  exists self,
    @XRDPowderPattern.__init__ MoreSamples.xrd
      (Some (XRDPowderPattern.PyInt 0, XRDPowderPattern.PyInt 127)) (1 # 20) None tt
    = XRDPowderPattern.Return self /\
    XRDPowderPattern.two_theta_range self
    = Some (XRDPowderPattern.PyInt 0, XRDPowderPattern.PyInt 127) /\
    XRDPowderPattern.pattern_length self = XRDPowderPattern.PyInt 128 /\
    XRDPowderPattern.feature_labels self
    = XRDPowderPattern.Return (map XRDPowderPattern.xrd_label (seq 0 128)).
Proof.
  exact (@X14_xrd_default_length MoreSamples.xrd (1 # 20) None tt tt 0 127
           ltac:(discriminate) eq_refl).
Defined.

Lemma X15_xrd_float_bounds_no_labels_witness :
  exists self,
    @XRDPowderPattern.__init__ MoreSamples.xrd
      (Some (XRDPowderPattern.PyFloat 0, XRDPowderPattern.PyInt 127)) (1 # 20) None tt
    = XRDPowderPattern.Return self /\
    XRDPowderPattern.pattern_length self
    = XRDPowderPattern.PyFloat (inject_Z 127 - 0 + 1) /\
    XRDPowderPattern.feature_labels self
    = XRDPowderPattern.Throw XRDPowderPattern.TypeError.
Proof.
  assert (Hn : forall m, @None XRDPowderPattern.pynum = Some m ->
                         XRDPowderPattern.truthy m = false)
    by (intros m Hm; discriminate Hm).
  assert (Hlo : forall z, XRDPowderPattern.PyFloat 0 <> XRDPowderPattern.PyInt z)
    by (intros z Hz; discriminate Hz).
  exact (@X15_xrd_float_bounds_no_labels MoreSamples.xrd (1 # 20) None tt tt
           (XRDPowderPattern.PyFloat 0) (XRDPowderPattern.PyInt 127)
           Hn eq_refl (or_introl Hlo)).
Defined.

Lemma X16_xrd_without_range_witness :
  let self := @XRDPowderPattern.mk MoreSamples.xrd None (1 # 20)
                (XRDPowderPattern.PyInt 128) tt in
  ~ XRDPowderPattern.returns (XRDPowderPattern.featurize self Samples.simple_cubic) /\
  XRDPowderPattern.featurize self Samples.simple_cubic
  = XRDPowderPattern.Throw XRDPowderPattern.TypeError.
Proof.
  intros self.
  destruct (@X16_xrd_without_range MoreSamples.xrd self Samples.simple_cubic eq_refl)
    as [Hnever Htype].
  split; [exact Hnever|].
  exact (Htype _ _ _ eq_refl eq_refl).
Defined.

Lemma X17_xrd_values_and_labels_witness :
  let self := @XRDPowderPattern.mk MoreSamples.xrd
                (Some (XRDPowderPattern.PyInt 0, XRDPowderPattern.PyInt 127))
                (1 # 20) (XRDPowderPattern.PyInt 128) tt in
  exists v labels,
    XRDPowderPattern.featurize self Samples.simple_cubic = XRDPowderPattern.Return v /\
    XRDPowderPattern.feature_labels self = XRDPowderPattern.Return labels /\
    length v = 128%nat /\ length labels = 128%nat /\ NoDup labels.
Proof.
  intros self.
  destruct (@X17_xrd_values_and_labels MoreSamples.xrd self Samples.simple_cubic 128
              (XRDPowderPattern.PyInt 0) (XRDPowderPattern.PyInt 127)
              _ _ _ eq_refl ltac:(lia) eq_refl eq_refl eq_refl)
    as (v & labels & Hv & Hl & Hlv & Hll & Hnd & _).
  exists v, labels. repeat split; assumption.
Defined.
